(** * h2: connection state machine and header utilities

    A shallow embedding of [h2/connection.py] and [h2/utilities.py], with the
    properties of the state machine, of the flow-control bound check and of
    the header validation and normalization pipelines.

    Python values are modelled as the code handles them: enumeration members
    as constructors, integers as [Z], octet strings ([bytes]) as [string]
    (one [ascii] per octet), dictionaries as [gmap], sets as [gset],
    generators as the finite traces they produce, and raised exceptions as
    the [Raise] case of [outcome]. *)

From Stdlib Require Import ZArith Ascii String.
From stdpp Require Import gmap strings list.

Local Open Scope string_scope.
Local Open Scope list_scope.

(** ** Exceptions and results *)

(** The exceptions the two modules can raise: the two of [h2.exceptions] and
    the built-in ones that escape from the interpreter. *)
Inductive exn : Type :=
  | ProtocolError
  | FlowControlError
  | ValueError
  | TypeError
  | IndexError
  | NameError (name : string)
  | AttributeError (attr : string).

(** What a call does: it returns a value or raises. *)
Inductive outcome (A : Type) : Type :=
  | Return (a : A)
  | Raise (e : exn).
Arguments Return {A} a.
Arguments Raise {A} e.

(** Sequencing: an exception ends the computation ([x ← m; k]). *)
#[global] Instance outcome_bind : MBind outcome := fun A B k m =>
  match m with
  | Return a => k a
  | Raise e => Raise e
  end.

(** * h2/connection.py *)

Module Connection.

(** [class ConnectionState(Enum)] *)
Inductive ConnectionState : Type := IDLE | CLIENT_OPEN | SERVER_OPEN | CLOSED.

(** [class ConnectionInputs(Enum)] *)
Inductive ConnectionInputs : Type :=
  | SEND_HEADERS | SEND_PUSH_PROMISE | SEND_DATA | SEND_GOAWAY
  | SEND_WINDOW_UPDATE | SEND_PING
  | RECV_HEADERS | RECV_PUSH_PROMISE | RECV_DATA | RECV_GOAWAY
  | RECV_WINDOW_UPDATE | RECV_PING.

(** The integer each member is declared with. *)
Definition ConnectionState_value (s : ConnectionState) : nat :=
  match s with IDLE => 0 | CLIENT_OPEN => 1 | SERVER_OPEN => 2 | CLOSED => 3 end.

Definition ConnectionState_of_value (n : nat) : option ConnectionState :=
  match n with
  | 0 => Some IDLE | 1 => Some CLIENT_OPEN | 2 => Some SERVER_OPEN
  | 3 => Some CLOSED | _ => None
  end.

Definition ConnectionInputs_value (i : ConnectionInputs) : nat :=
  match i with
  | SEND_HEADERS => 0 | SEND_PUSH_PROMISE => 1 | SEND_DATA => 2
  | SEND_GOAWAY => 3 | SEND_WINDOW_UPDATE => 4 | SEND_PING => 5
  | RECV_HEADERS => 6 | RECV_PUSH_PROMISE => 7 | RECV_DATA => 8
  | RECV_GOAWAY => 9 | RECV_WINDOW_UPDATE => 10 | RECV_PING => 11
  end.

Definition ConnectionInputs_of_value (n : nat) : option ConnectionInputs :=
  match n with
  | 0 => Some SEND_HEADERS | 1 => Some SEND_PUSH_PROMISE | 2 => Some SEND_DATA
  | 3 => Some SEND_GOAWAY | 4 => Some SEND_WINDOW_UPDATE | 5 => Some SEND_PING
  | 6 => Some RECV_HEADERS | 7 => Some RECV_PUSH_PROMISE | 8 => Some RECV_DATA
  | 9 => Some RECV_GOAWAY | 10 => Some RECV_WINDOW_UPDATE | 11 => Some RECV_PING
  | _ => None
  end.

#[global] Instance ConnectionState_eq_dec : EqDecision ConnectionState.
Proof. solve_decision. Defined.

#[global] Instance ConnectionInputs_eq_dec : EqDecision ConnectionInputs.
Proof. solve_decision. Defined.

#[global] Instance ConnectionState_countable : Countable ConnectionState.
Proof.
  apply (inj_countable ConnectionState_value ConnectionState_of_value).
  by intros [].
Defined.

#[global] Instance ConnectionInputs_countable : Countable ConnectionInputs.
Proof.
  apply (inj_countable ConnectionInputs_value ConnectionInputs_of_value).
  by intros [].
Defined.

(** The values that reach the state machine: [None], plain integers (the
    class also declares [SEND_HEADERS = 0] ... [RECV_PING = 11] as integers)
    and the members of the two enumerations. *)
Inductive pyval : Type :=
  | PyNone
  | PyInt (n : Z)
  | PyState (s : ConnectionState)
  | PyInput (i : ConnectionInputs).

#[global] Instance pyval_eq_dec : EqDecision pyval.
Proof. solve_decision. Defined.

#[global] Instance pyval_countable : Countable pyval.
Proof.
  apply (inj_countable'
    (fun v => match v with
              | PyNone => inl (inl (inl tt))
              | PyInt n => inl (inl (inr n))
              | PyState s => inl (inr s)
              | PyInput i => inr i
              end)
    (fun x => match x with
              | inl (inl (inl _)) => PyNone
              | inl (inl (inr n)) => PyInt n
              | inl (inr s) => PyState s
              | inr i => PyInput i
              end)).
  by intros [].
Defined.

(** The classes a global name of the module can be bound to. *)
Inductive pyclass : Type :=
  | Enum_cls
  | ProtocolError_cls
  | ConnectionState_cls
  | ConnectionInputs_cls.

(** Attribute access [cls.attr] on a class. *)
Definition getattr (cls : pyclass) (attr : string) : outcome pyval :=
  match cls with
  | ConnectionState_cls =>
      if decide (attr = "IDLE") then Return (PyState IDLE)
      else if decide (attr = "CLIENT_OPEN") then Return (PyState CLIENT_OPEN)
      else if decide (attr = "SERVER_OPEN") then Return (PyState SERVER_OPEN)
      else if decide (attr = "CLOSED") then Return (PyState CLOSED)
      else Raise (AttributeError attr)
  | ConnectionInputs_cls =>
      if decide (attr = "SEND_HEADERS") then Return (PyInput SEND_HEADERS)
      else if decide (attr = "SEND_PUSH_PROMISE") then Return (PyInput SEND_PUSH_PROMISE)
      else if decide (attr = "SEND_DATA") then Return (PyInput SEND_DATA)
      else if decide (attr = "SEND_GOAWAY") then Return (PyInput SEND_GOAWAY)
      else if decide (attr = "SEND_WINDOW_UPDATE") then Return (PyInput SEND_WINDOW_UPDATE)
      else if decide (attr = "SEND_PING") then Return (PyInput SEND_PING)
      else if decide (attr = "RECV_HEADERS") then Return (PyInput RECV_HEADERS)
      else if decide (attr = "RECV_PUSH_PROMISE") then Return (PyInput RECV_PUSH_PROMISE)
      else if decide (attr = "RECV_DATA") then Return (PyInput RECV_DATA)
      else if decide (attr = "RECV_GOAWAY") then Return (PyInput RECV_GOAWAY)
      else if decide (attr = "RECV_WINDOW_UPDATE") then Return (PyInput RECV_WINDOW_UPDATE)
      else if decide (attr = "RECV_PING") then Return (PyInput RECV_PING)
      else Raise (AttributeError attr)
  | Enum_cls | ProtocolError_cls => Raise (AttributeError attr)
  end.

(** The global names in scope while the body of
    [class H2ConnectionStateMachine] runs: the two imports and the two
    enumerations defined above it. *)
Definition module_globals : gmap string pyclass :=
  <["ConnectionInputs" := ConnectionInputs_cls]>
  (<["ConnectionState" := ConnectionState_cls]>
  (<["ProtocolError" := ProtocolError_cls]>
  (<["Enum" := Enum_cls]> ∅))).

(** The expressions of the [_transitions] display: [None] and [name.attr]. *)
Inductive expr : Type :=
  | ENone
  | EAttr (name attr : string).

Definition eval (ns : gmap string pyclass) (e : expr) : outcome pyval :=
  match e with
  | ENone => Return PyNone
  | EAttr name attr =>
      match ns !! name with
      | Some cls => getattr cls attr
      | None => Raise (NameError name)
      end
  end.

(** One line [(state, input): (func, target)] of the display. *)
Record entry : Type := Entry {
  key_state : expr;
  key_input : expr;
  val_func : expr;
  val_target : expr;
}.

Definition St (attr : string) : expr := EAttr "ConnectionState" attr.
Definition In_ (attr : string) : expr := EAttr "ConnectionInputs" attr.

(** The text of the [_transitions] dictionary display, line by line, names
    as they are spelled in the source. *)
Definition _transitions_display : list entry := [
  (* State: idle *)
  Entry (St "IDLE") (In_ "SEND_HEADERS") ENone (St "CLIENT_OPEN");
  Entry (St "IDLE") (In_ "RECV_HEADERS") ENone (St "SERVER_OPEN");
  (* State: open, client side. *)
  Entry (St "CLIENT_OPEN") (In_ "SEND_HEADERS") ENone (St "CLIENT_OPEN");
  Entry (St "CLIENT_OPEN") (In_ "SEND_DATA") ENone (St "CLIENT_OPEN");
  Entry (St "CLIENT_OPEN") (In_ "SEND_GOAWAY") ENone (St "CLOSED");
  Entry (St "CLIENT_OPEN") (In_ "SEND_WINDOW_UPDATE") ENone (St "CLIENT_OPEN");
  Entry (St "CLIENT_OPEN") (In_ "SEND_PING") ENone (St "CLIENT_OPEN");
  Entry (St "CLIENT_OPEN") (In_ "RECV_HEADERS") ENone (St "CLIENT_OPEN");
  Entry (St "CLIENT_OPEN") (In_ "RECV_PUSH_PROMISE") ENone (St "CLIENT_OPEN");
  Entry (St "CLIENT_OPEN") (In_ "RECV_DATA") ENone (St "CLIENT_OPEN");
  Entry (St "CLIENT_OPEN") (In_ "RECV_GOAWAY") ENone (St "CLOSED");
  Entry (St "CLIENT_OPEN") (In_ "RECV_WINDOW_UPDATE") ENone (St "CLIENT_OPEN");
  Entry (St "CLIENT_OPEN") (In_ "RECV_PING") ENone (St "CLIENT_OPEN");
  (* State: open, server side. *)
  Entry (St "SERVER_OPEN") (In_ "SEND_HEADERS") ENone (St "SERVER_OPEN");
  Entry (St "SERVER_OPEN") (In_ "SEND_PUSH_PROMISE") ENone (St "SERVER_OPEN");
  Entry (St "SERVER_OPEN") (In_ "SEND_DATA") ENone (St "SERVER_OPEN");
  Entry (St "SERVER_OPEN") (In_ "SEND_GOAWAY") ENone (St "CLOSED");
  Entry (St "SERVER_OPEN") (In_ "SEND_WINDOW_UPDATE") ENone (St "SERVER_OPEN");
  Entry (St "SERVER_OPEN") (In_ "SEND_PING") ENone (St "SERVER_OPEN");
  Entry (St "SERVER_OPEN") (In_ "RECV_HEADERS") ENone (St "SERVER_OPEN");
  Entry (St "SERVER_OPEN") (In_ "RECV_DATA") ENone (St "SERVER_OPEN");
  Entry (St "SERVER_OPEN") (In_ "RECV_GOAWAY") ENone (St "CLOSED");
  Entry (St "SERVER_OPEN") (In_ "RECV_WINDOW_UPDATE") ENone (St "SERVER_OPEN");
  Entry (St "SERVER_OPEN") (EAttr "ConnectlionInputs" "RECV_PING") ENone (St "SERVER_OPEN")
].

(** A dictionary from [(state, input)] to [(func, target)]. *)
Abbreviation transitions := (gmap (pyval * pyval) (pyval * pyval)).

(** Evaluation of a dictionary display: the entries in order, for each the
    key before the value, each tuple left to right; the first exception
    ends it. *)
Fixpoint eval_display (ns : gmap string pyclass) (d : list entry)
    (acc : transitions) : outcome transitions :=
  match d with
  | [] => Return acc
  | e :: d' =>
      s ← eval ns (key_state e);
      i ← eval ns (key_input e);
      f ← eval ns (val_func e);
      t ← eval ns (val_target e);
      eval_display ns d' (<[(s, i) := (f, t)]> acc)
  end.

(** The class attribute [_transitions], as the class body computes it in the
    namespace [ns]. *)
Definition _transitions (ns : gmap string pyclass) : outcome transitions :=
  eval_display ns _transitions_display ∅.

(** An instance of [H2ConnectionStateMachine]: its only attribute. *)
Record H2ConnectionStateMachine : Type := Machine { state : pyval }.

(** [__init__] *)
Definition init : H2ConnectionStateMachine := Machine (PyState IDLE).

Definition isinstance_ConnectionInputs (v : pyval) : bool :=
  match v with PyInput _ => true | _ => false end.

(** [process_input(self, input_)] with [T] the value of [self._transitions]:
    the machine after the call and what the call did. No value of this model
    is callable, so a [func] other than [None] would fail in [func()]. *)
Definition process_input (T : transitions) (self : H2ConnectionStateMachine)
    (input_ : pyval) : H2ConnectionStateMachine * outcome pyval :=
  if negb (isinstance_ConnectionInputs input_) then (self, Raise ValueError)
  else
    match T !! (state self, input_) with
    | None => (Machine (PyState CLOSED), Raise ProtocolError)
    | Some (func, target_state) =>
        (Machine target_state,
         match func with
         | PyNone => Return PyNone
         | _ => Raise TypeError
         end)
    end.

(** Importing the module runs the class body in the module's globals; a
    machine exists only if that succeeds. *)
Definition import_module : outcome transitions := _transitions module_globals.

(** A caller that feeds the machine one input after the other and catches
    what each call raises: the machine at the end and what each call did. *)
Fixpoint feed (T : transitions) (m : H2ConnectionStateMachine)
    (inputs : list pyval) : H2ConnectionStateMachine * list (outcome pyval) :=
  match inputs with
  | [] => (m, [])
  | i :: rest =>
      let (m', r) := process_input T m i in
      let (m'', rs) := feed T m' rest in
      (m'', r :: rs)
  end.

(** A run of the program: import the module, construct a machine, feed it
    the inputs. *)
Definition run (inputs : list pyval)
    : outcome (H2ConnectionStateMachine * list (outcome pyval)) :=
  T ← import_module;
  Return (feed T init inputs).

(** ** Vocabulary of the properties *)

(** The dictionary the display denotes once every name in it resolves. *)
Definition table : transitions :=
  list_to_map (
    (fun '(s, i, t) => ((PyState s, PyInput i), (PyNone, PyState t))) <$> [
    (IDLE, SEND_HEADERS, CLIENT_OPEN);
    (IDLE, RECV_HEADERS, SERVER_OPEN);
    (CLIENT_OPEN, SEND_HEADERS, CLIENT_OPEN);
    (CLIENT_OPEN, SEND_DATA, CLIENT_OPEN);
    (CLIENT_OPEN, SEND_GOAWAY, CLOSED);
    (CLIENT_OPEN, SEND_WINDOW_UPDATE, CLIENT_OPEN);
    (CLIENT_OPEN, SEND_PING, CLIENT_OPEN);
    (CLIENT_OPEN, RECV_HEADERS, CLIENT_OPEN);
    (CLIENT_OPEN, RECV_PUSH_PROMISE, CLIENT_OPEN);
    (CLIENT_OPEN, RECV_DATA, CLIENT_OPEN);
    (CLIENT_OPEN, RECV_GOAWAY, CLOSED);
    (CLIENT_OPEN, RECV_WINDOW_UPDATE, CLIENT_OPEN);
    (CLIENT_OPEN, RECV_PING, CLIENT_OPEN);
    (SERVER_OPEN, SEND_HEADERS, SERVER_OPEN);
    (SERVER_OPEN, SEND_PUSH_PROMISE, SERVER_OPEN);
    (SERVER_OPEN, SEND_DATA, SERVER_OPEN);
    (SERVER_OPEN, SEND_GOAWAY, CLOSED);
    (SERVER_OPEN, SEND_WINDOW_UPDATE, SERVER_OPEN);
    (SERVER_OPEN, SEND_PING, SERVER_OPEN);
    (SERVER_OPEN, RECV_HEADERS, SERVER_OPEN);
    (SERVER_OPEN, RECV_DATA, SERVER_OPEN);
    (SERVER_OPEN, RECV_GOAWAY, CLOSED);
    (SERVER_OPEN, RECV_WINDOW_UPDATE, SERVER_OPEN);
    (SERVER_OPEN, RECV_PING, SERVER_OPEN) ]).

(** The module's globals with the misspelled name bound as well. *)
Definition patched_globals : gmap string pyclass :=
  <["ConnectlionInputs" := ConnectionInputs_cls]> module_globals.

End Connection.

(** * h2/utilities.py *)

Module Utilities.

(** ** Octet strings

    [bytes] values, with the operations of Python 3 the module uses on
    them. *)
Abbreviation bytes := string.

(** [ord]: the integer an index into a [bytes] value gives. *)
Definition ord (c : ascii) : N := N_of_ascii c.

Fixpoint octets (s : bytes) : list ascii :=
  match s with
  | EmptyString => []
  | String c s' => c :: octets s'
  end.

Fixpoint of_octets (l : list ascii) : bytes :=
  match l with
  | [] => EmptyString
  | c :: l' => String c (of_octets l')
  end.

(** [len(s)] *)
Definition len (s : bytes) : Z := Z.of_nat (String.length s).

(** [s[i]]: a negative index counts from the end; out of range raises. *)
Definition getitem (s : bytes) (i : Z) : outcome N :=
  let j := if (i <? 0)%Z then (i + len s)%Z else i in
  if (j <? 0)%Z then Raise IndexError
  else match octets s !! Z.to_nat j with
       | Some c => Return (ord c)
       | None => Raise IndexError
       end.

(** Truth value of a [bytes] value: non-empty. *)
Definition truthy (s : bytes) : bool :=
  match s with EmptyString => false | String _ _ => true end.

(** [s.startswith(p)] *)
Fixpoint startswith (s p : bytes) : bool :=
  match p, s with
  | EmptyString, _ => true
  | String c p', String d s' => bool_decide (c = d) && startswith s' p'
  | String _ _, EmptyString => false
  end.

Definition isupper (c : ascii) : bool := ((65 <=? ord c) && (ord c <=? 90))%N.

(** [UPPER_RE.search(s)] for [UPPER_RE = re.compile(b"[A-Z]")]: whether a
    match exists. *)
Definition UPPER_RE_search (s : bytes) : bool := existsb isupper (octets s).

(** [s.lower()]: the ASCII upper-case octets are shifted, the others kept. *)
Definition lower_octet (c : ascii) : ascii :=
  if isupper c then ascii_of_N (ord c + 32) else c.

Definition lower (s : bytes) : bytes := of_octets (lower_octet <$> octets s).

(** [string.whitespace] is [' \t\n\r\x0b\x0c']; under Python 3
    [_WHITESPACE = frozenset(map(ord, whitespace))]. *)
Definition _WHITESPACE : gset N := {[ 32; 9; 10; 13; 11; 12 ]}%N.

Definition isspace (c : ascii) : bool := bool_decide (ord c ∈ _WHITESPACE).

Fixpoint lstrip_octets (l : list ascii) : list ascii :=
  match l with
  | c :: l' => if isspace c then lstrip_octets l' else l
  | [] => []
  end.

(** [s.strip()]: leading and trailing ASCII whitespace removed. *)
Definition strip (s : bytes) : bytes :=
  of_octets (rev (lstrip_octets (rev (lstrip_octets (octets s))))).

(** ** Header tuples *)

(** The class of a header: a plain two-tuple, or hpack's [HeaderTuple] or
    its subclass [NeverIndexedHeaderTuple]. *)
Inductive tuple_class : Type :=
  | PlainTuple
  | HeaderTuple
  | NeverIndexedHeaderTuple.

#[global] Instance tuple_class_eq_dec : EqDecision tuple_class.
Proof. solve_decision. Defined.

(** A header: [name] is [header[0]], [value] is [header[1]]. *)
Record header : Type := Header {
  cls : tuple_class;
  name : bytes;
  value : bytes;
}.

#[global] Instance header_eq_dec : EqDecision header.
Proof. solve_decision. Defined.

(** [isinstance(header, HeaderTuple)] *)
Definition isinstance_HeaderTuple (h : header) : bool :=
  match cls h with PlainTuple => false | _ => true end.

(** hpack reads the sensitivity off the class. *)
Definition never_indexed (h : header) : bool :=
  bool_decide (cls h = NeverIndexedHeaderTuple).

(** The module compares names with both the [bytes] and the text spelling;
    on [bytes] names only the first can match, so each set has one element
    per name. *)
Definition CONNECTION_HEADERS : gset bytes :=
  {[ "connection"; "proxy-connection"; "keep-alive"; "transfer-encoding";
     "upgrade" ]}.

Definition _ALLOWED_PSEUDO_HEADER_FIELDS : gset bytes :=
  {[ ":method"; ":scheme"; ":authority"; ":path"; ":status" ]}.

Definition _SECURE_HEADERS : gset bytes :=
  {[ "authorization"; "proxy-authorization" ]}.

Record HeaderValidationFlags : Type := Flags {
  is_client : bool;
  is_trailer : bool;
  is_response_header : bool;
  is_push_promise : bool;
}.

(** ** Generators

    A generator over a finite input is modelled by its trace: the values it
    yields one after the other, ended by exhaustion or by the exception that
    escapes from it. *)
Inductive gen (A : Type) : Type :=
  | Stop
  | Yield (a : A) (rest : gen A)
  | Throw (e : exn).
Arguments Stop {A}.
Arguments Yield {A} a rest.
Arguments Throw {A} e.

(** Iterating over a list. *)
Fixpoint iter {A} (l : list A) : gen A :=
  match l with
  | [] => Stop
  | a :: l' => Yield a (iter l')
  end.

(** [list(g)] *)
Fixpoint list_ {A} (g : gen A) : outcome (list A) :=
  match g with
  | Stop => Return []
  | Yield a rest => l ← list_ rest; Return (a :: l)
  | Throw e => Raise e
  end.

(** A generator of the shape [for header in headers: body], where the body
    may raise and yields at most once, at its end: [body] gives what is
    yielded for one header. An exception of the source generator escapes
    through the loop. *)
Fixpoint for_each (body : header -> outcome (option header))
    (headers : gen header) : gen header :=
  match headers with
  | Stop => Stop
  | Throw e => Throw e
  | Yield h rest =>
      match body h with
      | Raise e => Throw e
      | Return (Some h') => Yield h' (for_each body rest)
      | Return None => for_each body rest
      end
  end.

(** ** Outbound normalization *)

(** A [NeverIndexedHeaderTuple] built from the two elements of [header]. *)
Definition NeverIndexed (h : header) : header :=
  Header NeverIndexedHeaderTuple (name h) (value h).

Definition _secure_headers (headers : gen header)
    (hdr_validation_flags : HeaderValidationFlags) : gen header :=
  for_each (fun header =>
    if bool_decide (name header ∈ _SECURE_HEADERS) then
      Return (Some (NeverIndexed header))
    else if bool_decide (name header = "cookie")
            && (len (value header) <? 20)%Z then
      Return (Some (NeverIndexed header))
    else
      Return (Some header)) headers.

(** [header.__class__(...)] keeps the class of a [HeaderTuple]; anything else
    is rebuilt as a plain tuple. *)
Definition rebuild (h : header) (n v : bytes) : header :=
  if isinstance_HeaderTuple h then Header (cls h) n v
  else Header PlainTuple n v.

Definition _lowercase_header_names (headers : gen header)
    (hdr_validation_flags : HeaderValidationFlags) : gen header :=
  for_each (fun header =>
    Return (Some (rebuild header (lower (name header)) (value header))))
    headers.

Definition _strip_surrounding_whitespace (headers : gen header)
    (hdr_validation_flags : HeaderValidationFlags) : gen header :=
  for_each (fun header =>
    Return (Some (rebuild header (strip (name header)) (strip (value header)))))
    headers.

Definition _strip_connection_headers (headers : gen header)
    (hdr_validation_flags : HeaderValidationFlags) : gen header :=
  for_each (fun header =>
    if negb (bool_decide (name header ∈ CONNECTION_HEADERS)) then
      Return (Some header)
    else Return None) headers.

Definition normalize_outbound_headers (headers : gen header)
    (hdr_validation_flags : HeaderValidationFlags) : gen header :=
  let headers := _lowercase_header_names headers hdr_validation_flags in
  let headers := _strip_surrounding_whitespace headers hdr_validation_flags in
  let headers := _strip_connection_headers headers hdr_validation_flags in
  let headers := _secure_headers headers hdr_validation_flags in
  headers.

(** ** Informational responses *)

(** What [is_informational_response] hands back: a boolean from one of its
    two [return] statements, or [None] when the loop runs off the end of the
    block. *)
Inductive retval : Type :=
  | RNone
  | RBool (b : bool).

Fixpoint is_informational_response (headers : list header) : retval :=
  match headers with
  | [] => RNone
  | h :: rest =>
      let n := name h in
      let v := value h in
      (* If we find a non-special header, we're done here: stop looping. *)
      if negb (startswith n ":") then RBool false
      (* This isn't the status header, bail. *)
      else if bool_decide (n ≠ ":status") then is_informational_response rest
      (* If the first digit is a 1, we've got informational headers. *)
      else RBool (startswith v "1")
  end.

(** ** Flow control *)

Definition LARGEST_FLOW_CONTROL_WINDOW : Z := 2 ^ 31 - 1.

Definition guard_increment_window (current increment : Z) : outcome Z :=
  let new_size := (current + increment)%Z in
  if (new_size >? LARGEST_FLOW_CONTROL_WINDOW)%Z then Raise FlowControlError
  else Return new_size.

(** ** Inbound validation *)

Definition _reject_uppercase_header_fields (headers : gen header)
    (hdr_validation_flags : HeaderValidationFlags) : gen header :=
  for_each (fun header =>
    if UPPER_RE_search (name header) then Raise ProtocolError
    else Return (Some header)) headers.

(** [s[0] in _WHITESPACE or s[-1] in _WHITESPACE]: the second index is taken
    only when the first test is false. *)
Definition surrounded (s : bytes) : outcome bool :=
  first ← getitem s 0;
  if bool_decide (first ∈ _WHITESPACE) then Return true
  else last ← getitem s (-1); Return (bool_decide (last ∈ _WHITESPACE)).

Definition _reject_surrounding_whitespace (headers : gen header)
    (hdr_validation_flags : HeaderValidationFlags) : gen header :=
  for_each (fun header =>
    bad_name ← surrounded (name header);
    if bad_name : bool then Raise ProtocolError
    else
      bad_value ← (if truthy (value header) then surrounded (value header)
                   else Return false);
      if bad_value : bool then Raise ProtocolError
      else Return (Some header)) headers.

Definition _reject_te (headers : gen header)
    (hdr_validation_flags : HeaderValidationFlags) : gen header :=
  for_each (fun header =>
    if bool_decide (name header = "te")
       && negb (bool_decide (lower (value header) = "trailers")) then
      Raise ProtocolError
    else Return (Some header)) headers.

Definition _reject_connection_header (headers : gen header)
    (hdr_validation_flags : HeaderValidationFlags) : gen header :=
  for_each (fun header =>
    if bool_decide (name header ∈ CONNECTION_HEADERS) then Raise ProtocolError
    else Return (Some header)) headers.

Definition _custom_startswith (test_string bytes_prefix : bytes) : bool :=
  startswith test_string bytes_prefix.

(** The loop of [_reject_pseudo_header_fields] and the two checks after it,
    with the local variables as arguments. *)
Fixpoint _reject_pseudo_header_fields_from
    (seen_pseudo_header_fields : gset bytes) (seen_regular_header : bool)
    (hdr_validation_flags : HeaderValidationFlags)
    (headers : gen header) : gen header :=
  match headers with
  | Throw e => Throw e
  | Yield header rest =>
      if _custom_startswith (name header) ":" then
        if bool_decide (name header ∈ seen_pseudo_header_fields) then
          Throw ProtocolError
        else
          let seen' := {[ name header ]} ∪ seen_pseudo_header_fields in
          if seen_regular_header then Throw ProtocolError
          else if negb (bool_decide (name header ∈ _ALLOWED_PSEUDO_HEADER_FIELDS))
          then Throw ProtocolError
          else Yield header
                 (_reject_pseudo_header_fields_from seen' seen_regular_header
                    hdr_validation_flags rest)
      else
        Yield header
          (_reject_pseudo_header_fields_from seen_pseudo_header_fields true
             hdr_validation_flags rest)
  | Stop =>
      (* Pseudo-header fields MUST NOT appear in trailers *)
      if is_trailer hdr_validation_flags
         && bool_decide (seen_pseudo_header_fields ≠ ∅) then
        Throw ProtocolError
      (* If ':status' pseudo-header is not there in a response header,
         reject it *)
      else if is_response_header hdr_validation_flags then
        let seen_status_field :=
          bool_decide (":status" ∈ seen_pseudo_header_fields) in
        if negb seen_status_field then Throw ProtocolError else Stop
      else Stop
  end.

Definition _reject_pseudo_header_fields (headers : gen header)
    (hdr_validation_flags : HeaderValidationFlags) : gen header :=
  _reject_pseudo_header_fields_from ∅ false hdr_validation_flags headers.

(** The loop of [_validate_host_authority_header] and the checks after it;
    [None] is the sentinel of the source. *)
Fixpoint _validate_host_authority_header_from
    (authority_header_val host_header_val : option bytes)
    (headers : gen header) : gen header :=
  match headers with
  | Throw e => Throw e
  | Yield header rest =>
      if bool_decide (name header = ":authority") then
        Yield header
          (_validate_host_authority_header_from (Some (value header))
             host_header_val rest)
      else if bool_decide (name header = "host") then
        Yield header
          (_validate_host_authority_header_from authority_header_val
             (Some (value header)) rest)
      else
        Yield header
          (_validate_host_authority_header_from authority_header_val
             host_header_val rest)
  | Stop =>
      let authority_present := bool_decide (authority_header_val ≠ None) in
      let host_present := bool_decide (host_header_val ≠ None) in
      if negb authority_present && negb host_present then Throw ProtocolError
      else if authority_present && host_present
              && bool_decide (authority_header_val ≠ host_header_val) then
        Throw ProtocolError
      else Stop
  end.

Definition _validate_host_authority_header (headers : gen header) : gen header :=
  _validate_host_authority_header_from None None headers.

Definition _check_host_authority_header (headers : gen header)
    (hdr_validation_flags : HeaderValidationFlags) : gen header :=
  let skip_validation :=
    is_response_header hdr_validation_flags || is_trailer hdr_validation_flags in
  if skip_validation then headers
  else _validate_host_authority_header headers.

Definition validate_headers (headers : list header)
    (hdr_validation_flags : HeaderValidationFlags) : outcome (list header) :=
  let headers := iter headers in
  let headers := _reject_uppercase_header_fields headers hdr_validation_flags in
  let headers := _reject_surrounding_whitespace headers hdr_validation_flags in
  let headers := _reject_te headers hdr_validation_flags in
  let headers := _reject_connection_header headers hdr_validation_flags in
  let headers := _reject_pseudo_header_fields headers hdr_validation_flags in
  let headers := _check_host_authority_header headers hdr_validation_flags in
  list_ headers.

(** ** Vocabulary of the properties *)

(** A pseudo-header: the name begins with a colon. *)
Definition is_pseudo (h : header) : bool := startswith (name h) ":".

(** Whether normalization forces a header with this name and value to be
    never-indexed. *)
Definition forced_never_indexed (n v : bytes) : bool :=
  bool_decide (n = "authorization") || bool_decide (n = "proxy-authorization")
  || (bool_decide (n = "cookie") && (len v <? 20)%Z).

(** What normalization makes of the header [i] it keeps: [o]. *)
Definition normalized (i o : header) : Prop :=
  name o = strip (lower (name i)) /\
  value o = strip (value i) /\
  (if forced_never_indexed (name o) (value o)
   then cls o = NeverIndexedHeaderTuple
   else cls o = cls i).

(** The headers normalization does not drop. *)
Definition kept (B : list header) : list header :=
  filter (fun h => strip (lower (name h)) ∉ CONNECTION_HEADERS) B.

(** The value of the last header of the block with the given name. *)
Definition last_value (n : bytes) (B : list header) : option bytes :=
  value <$> last (filter (fun h => name h = n) B).

(** The ways a block breaks the pseudo-header discipline. *)
Inductive pseudo_violation (F : HeaderValidationFlags) (B : list header) : Prop :=
  | duplicated (i j : nat) (x y : header) :
      i < j -> B !! i = Some x -> B !! j = Some y ->
      is_pseudo x = true -> name y = name x -> pseudo_violation F B
  | after_regular (i j : nat) (x y : header) :
      i < j -> B !! i = Some x -> B !! j = Some y ->
      is_pseudo x = false -> is_pseudo y = true -> pseudo_violation F B
  | not_allowed (x : header) :
      x ∈ B -> is_pseudo x = true ->
      name x ∉ _ALLOWED_PSEUDO_HEADER_FIELDS -> pseudo_violation F B
  | pseudo_in_trailer (x : header) :
      is_trailer F = true -> x ∈ B -> is_pseudo x = true ->
      pseudo_violation F B
  | response_without_status :
      is_response_header F = true ->
      (forall x, x ∈ B -> name x <> ":status") -> pseudo_violation F B.

(** The four passes on one header: what is emitted for it, if anything. *)
Definition normalize_one (h : header) : option header :=
  let n := strip (lower (name h)) in
  let v := strip (value h) in
  if bool_decide (n ∈ CONNECTION_HEADERS) then None
  else if forced_never_indexed n v then Some (Header NeverIndexedHeaderTuple n v)
  else Some (Header (cls h) n v).

(** ** Inbound validation as one pass

    The six generators of [validate_headers] pull one header at a time
    through all the checks, so the pipeline is one left-to-right pass that
    carries the local variables of the two stateful generators. *)

(** The four stateless checks on one header, in pipeline order. *)
Definition field_check (h : header) : outcome unit :=
  if UPPER_RE_search (name h) then Raise ProtocolError
  else
    bad_name ← surrounded (name h);
    if bad_name : bool then Raise ProtocolError
    else
      bad_value ← (if truthy (value h) then surrounded (value h)
                   else Return false);
      if bad_value : bool then Raise ProtocolError
      else if bool_decide (name h = "te")
              && negb (bool_decide (lower (value h) = "trailers"))
      then Raise ProtocolError
      else if bool_decide (name h ∈ CONNECTION_HEADERS) then Raise ProtocolError
      else Return ().

(** The local variables of the pass; [host_authority] is [None] when the
    last check is skipped. *)
Record scan : Type := Scan {
  seen_pseudo : gset bytes;
  seen_regular : bool;
  host_authority : option (option bytes * option bytes);
}.

Definition pseudo_step (seen : gset bytes) (regular : bool) (h : header)
    : outcome (gset bytes * bool) :=
  if is_pseudo h then
    if bool_decide (name h ∈ seen) then Raise ProtocolError
    else if regular then Raise ProtocolError
    else if negb (bool_decide (name h ∈ _ALLOWED_PSEUDO_HEADER_FIELDS))
    then Raise ProtocolError
    else Return ({[ name h ]} ∪ seen, regular)
  else Return (seen, true).

Definition host_step (ah : option bytes * option bytes) (h : header)
    : option bytes * option bytes :=
  if bool_decide (name h = ":authority") then (Some (value h), ah.2)
  else if bool_decide (name h = "host") then (ah.1, Some (value h))
  else ah.

Definition step (st : scan) (h : header) : outcome scan :=
  _ ← field_check h;
  sr ← pseudo_step (seen_pseudo st) (seen_regular st) h;
  Return (Scan sr.1 sr.2 ((fun ah => host_step ah h) <$> host_authority st)).

Definition host_finish (ah : option bytes * option bytes) : outcome unit :=
  let authority_present := bool_decide (ah.1 ≠ None) in
  let host_present := bool_decide (ah.2 ≠ None) in
  if negb authority_present && negb host_present then Raise ProtocolError
  else if authority_present && host_present && bool_decide (ah.1 ≠ ah.2)
  then Raise ProtocolError
  else Return ().

Definition finish (F : HeaderValidationFlags) (st : scan) : outcome unit :=
  if is_trailer F && bool_decide (seen_pseudo st ≠ ∅) then Raise ProtocolError
  else if is_response_header F && negb (bool_decide (":status" ∈ seen_pseudo st))
  then Raise ProtocolError
  else match host_authority st with
       | None => Return ()
       | Some ah => host_finish ah
       end.

Fixpoint scan_from (F : HeaderValidationFlags) (st : scan) (B : list header)
    : outcome (list header) :=
  match B with
  | [] => _ ← finish F st; Return []
  | h :: B' => st' ← step st h; l ← scan_from F st' B'; Return (h :: l)
  end.

Definition scan_init (F : HeaderValidationFlags) : scan :=
  Scan ∅ false
    (if is_response_header F || is_trailer F then None else Some (None, None)).

(** The four stateless generators, stacked. *)
Definition stateless (g : gen header) (F : HeaderValidationFlags) : gen header :=
  _reject_connection_header
    (_reject_te
       (_reject_surrounding_whitespace
          (_reject_uppercase_header_fields g F) F) F) F.

(** The whole stack, started with given local variables. *)
Definition pipeline_from (F : HeaderValidationFlags) (st : scan)
    (g : gen header) : gen header :=
  let g5 := _reject_pseudo_header_fields_from (seen_pseudo st) (seen_regular st)
              F (stateless g F) in
  match host_authority st with
  | None => g5
  | Some ah => _validate_host_authority_header_from ah.1 ah.2 g5
  end.

(** ** The extractors *)

(** [extract_method_header]: the value of the first ":method" header; the
    loop falls off its end, and the call gives [None], when there is none.
    A [bytes] value is returned as it is. *)
Fixpoint extract_method_header (headers : list header) : option bytes :=
  match headers with
  | [] => None
  | h :: rest =>
      let k := name h in
      let v := value h in
      if bool_decide (k = ":method") then Some v
      else extract_method_header rest
  end.

(** [authority_from_headers] *)
Fixpoint authority_from_headers (headers : list header) : option bytes :=
  match headers with
  | [] => None
  | h :: rest =>
      let n := name h in
      let v := value h in
      if bool_decide (n = ":authority") then Some v
      else authority_from_headers rest
  end.

(** ** Outbound validation *)

Definition _check_sent_host_authority_header (headers : gen header)
    (hdr_validation_flags : HeaderValidationFlags) : gen header :=
  let skip_validation :=
    is_response_header hdr_validation_flags || is_trailer hdr_validation_flags in
  if skip_validation then headers
  else _validate_host_authority_header headers.

Definition validate_outbound_headers (headers : gen header)
    (hdr_validation_flags : HeaderValidationFlags) : gen header :=
  let headers := _reject_te headers hdr_validation_flags in
  let headers := _reject_connection_header headers hdr_validation_flags in
  let headers := _reject_pseudo_header_fields headers hdr_validation_flags in
  let headers := _check_sent_host_authority_header headers hdr_validation_flags in
  headers.

(** ** Vocabulary of the further properties *)

(** The first or the last octet is whitespace. *)
Definition edge_whitespace (s : bytes) : Prop :=
  exists c, (head (octets s) = Some c \/ last (octets s) = Some c) /\
            ord c ∈ _WHITESPACE.

(** What the four stateless checks ask of one header. *)
Definition field_ok (h : header) : Prop :=
  name h <> "" /\
  Forall (fun c => ~ (65 <= ord c <= 90)%N) (octets (name h)) /\
  ~ edge_whitespace (name h) /\
  ~ edge_whitespace (value h) /\
  (name h = "te" -> lower (value h) = "trailers") /\
  name h ∉ CONNECTION_HEADERS.

(** ":authority" or "host" is there, and when both are the last values
    agree. *)
Definition host_authority_agree (B : list header) : Prop :=
  match last_value ":authority" B, last_value "host" B with
  | None, None => False
  | Some a, Some h => a = h
  | _, _ => True
  end.

(** The blocks inbound validation lets through. *)
Definition valid_block (F : HeaderValidationFlags) (B : list header) : Prop :=
  Forall field_ok B /\
  ~ pseudo_violation F B /\
  (is_response_header F || is_trailer F = false -> host_authority_agree B).

(** The two stateless checks of outbound validation on one header. *)
Definition sent_check (h : header) : outcome unit :=
  if bool_decide (name h = "te")
     && negb (bool_decide (lower (value h) = "trailers"))
  then Raise ProtocolError
  else if bool_decide (name h ∈ CONNECTION_HEADERS) then Raise ProtocolError
  else Return ().

(** The one-pass scan with the stateless checks as a parameter. *)
Definition step_with (check : header -> outcome unit) (st : scan) (h : header)
    : outcome scan :=
  _ ← check h;
  sr ← pseudo_step (seen_pseudo st) (seen_regular st) h;
  Return (Scan sr.1 sr.2 ((fun ah => host_step ah h) <$> host_authority st)).

Fixpoint scan_with (check : header -> outcome unit) (F : HeaderValidationFlags)
    (st : scan) (B : list header) : outcome (list header) :=
  match B with
  | [] => _ ← finish F st; Return []
  | h :: B' =>
      st' ← step_with check st h; l ← scan_with check F st' B'; Return (h :: l)
  end.

(** The octets of [s.strip()]. *)
Definition strip_octets (l : list ascii) : list ascii :=
  rev (lstrip_octets (rev (lstrip_octets l))).

(** The two stateful generators, stacked, started with given local
    variables. *)
Definition stateful_from (F : HeaderValidationFlags) (st : scan)
    (g : gen header) : gen header :=
  let g' := _reject_pseudo_header_fields_from (seen_pseudo st) (seen_regular st)
              F g in
  match host_authority st with
  | None => g'
  | Some ah => _validate_host_authority_header_from ah.1 ah.2 g'
  end.

End Utilities.

(** * Properties of the connection state machine *)

Module ConnectionFacts.
Import Connection.

(** With the misspelled name bound, the class body builds the dictionary. *)
Lemma transitions_patched : _transitions patched_globals = Return table.
Proof. vm_compute. reflexivity. Qed.

(** Whatever the namespace, the display evaluates to [table] or raises. *)
Lemma transitions_Return (ns : gmap string pyclass) (T : transitions) :
  _transitions ns = Return T -> T = table.
Proof.
  unfold _transitions, _transitions_display, St, In_; cbn [eval_display].
  cbn [key_state key_input val_func val_target eval].
  destruct (ns !! "ConnectionState") as [[]|];
    try (cbn; discriminate).
  destruct (ns !! "ConnectionInputs") as [[]|];
    try (cbn; discriminate).
  destruct (ns !! "ConnectlionInputs") as [[]|];
    try (cbn; discriminate).
  intros H. vm_compute in H. injection H as <-. vm_compute. reflexivity.
Qed.

Lemma table_lookup_closed (i : pyval) : table !! (PyState CLOSED, i) = None.
Proof.
  destruct (table !! (PyState CLOSED, i)) as [v|] eqn:E; [|done].
  apply elem_of_list_to_map_2 in E.
  repeat (apply elem_of_cons in E as [E|E]; [discriminate E|]).
  by apply elem_of_nil in E.
Qed.

(** C1. The transition table of the specification is not what the code
    builds: the last line of the display names [ConnectlionInputs], which is
    bound nowhere, so the class body raises a [NameError] when the module is
    imported. No machine is ever constructed, whatever inputs the caller
    meant to feed it; in particular none accepts RECV_PING in SERVER_OPEN. *)
Theorem import_raises_NameError :
  import_module = Raise (NameError "ConnectlionInputs") /\
  forall inputs : list pyval,
    run inputs = Raise (NameError "ConnectlionInputs").
Proof.
  assert (H : import_module = Raise (NameError "ConnectlionInputs"))
    by (vm_compute; reflexivity).
  split; [exact H|]. intros inputs. unfold run. by rewrite H.
Qed.

(** C2. For a state S among IDLE, CLIENT_OPEN and SERVER_OPEN and an input I
    with no entry for (S, I) in the transition table, [process_input] raises
    a [ProtocolError] and has set the state to CLOSED by then. In particular,
    with the table of the display, a new machine given SEND_DATA raises a
    [ProtocolError] and ends in CLOSED. *)
Theorem process_input_not_in_table :
  (forall (T : transitions) (S : ConnectionState) (I : ConnectionInputs),
     S = IDLE \/ S = CLIENT_OPEN \/ S = SERVER_OPEN ->
     T !! (PyState S, PyInput I) = None ->
     process_input T (Machine (PyState S)) (PyInput I)
       = (Machine (PyState CLOSED), Raise ProtocolError)) /\
  (forall (ns : gmap string pyclass) (T : transitions),
     _transitions ns = Return T ->
     process_input T init (PyInput SEND_DATA)
       = (Machine (PyState CLOSED), Raise ProtocolError)).
Proof.
  split.
  - intros T S I _ Habsent. unfold process_input.
    cbn [isinstance_ConnectionInputs negb state]. by rewrite Habsent.
  - intros ns T HT. apply transitions_Return in HT as ->. vm_compute. reflexivity.
Qed.

(** A new machine given SEND_DATA. *)
Lemma process_input_not_in_table_witness :
  process_input table (Machine (PyState IDLE)) (PyInput SEND_DATA)
    = (Machine (PyState CLOSED), Raise ProtocolError) /\
  process_input table init (PyInput SEND_DATA)
    = (Machine (PyState CLOSED), Raise ProtocolError).
Proof.
  split.
  - apply (proj1 process_input_not_in_table table IDLE SEND_DATA).
    + left. reflexivity.
    + vm_compute. reflexivity.
  - apply (proj2 process_input_not_in_table patched_globals table).
    exact transitions_patched.
Defined.

Lemma feed_closed (T : transitions) (inputs : list pyval) :
  (forall i, T !! (PyState CLOSED, i) = None) ->
  fst (feed T (Machine (PyState CLOSED)) inputs) = Machine (PyState CLOSED).
Proof.
  intros Hclosed. induction inputs as [|i rest IH]; [reflexivity|].
  cbn [feed].
  assert (Hstep : fst (process_input T (Machine (PyState CLOSED)) i)
                  = Machine (PyState CLOSED)).
  { unfold process_input. destruct (negb _); [reflexivity|].
    cbn [state]. by rewrite Hclosed. }
  destruct (process_input T (Machine (PyState CLOSED)) i) as [m' r].
  cbn [fst] in Hstep. subst m'.
  destruct (feed T (Machine (PyState CLOSED)) rest) as [m'' rs].
  exact IH.
Qed.

(** C3. CLOSED is terminal. With the table of the display, every input
    processed in state CLOSED raises a [ProtocolError] and leaves the state
    CLOSED, and the state is still CLOSED after any further sequence of
    calls. *)
Theorem closed_is_terminal (ns : gmap string pyclass) (T : transitions) :
  _transitions ns = Return T ->
  (forall I : ConnectionInputs,
     process_input T (Machine (PyState CLOSED)) (PyInput I)
       = (Machine (PyState CLOSED), Raise ProtocolError)) /\
  (forall inputs : list pyval,
     fst (feed T (Machine (PyState CLOSED)) inputs) = Machine (PyState CLOSED)).
Proof.
  intros HT. apply transitions_Return in HT as ->. split.
  - intros I. unfold process_input.
    cbn [isinstance_ConnectionInputs negb state].
    by rewrite table_lookup_closed.
  - intros inputs. apply feed_closed, table_lookup_closed.
Qed.

(** RECV_PING in CLOSED, and three more calls, one of them with an integer. *)
Lemma closed_is_terminal_witness :
  process_input table (Machine (PyState CLOSED)) (PyInput RECV_PING)
    = (Machine (PyState CLOSED), Raise ProtocolError) /\
  fst (feed table (Machine (PyState CLOSED))
         [PyInput SEND_HEADERS; PyInt 2; PyInput RECV_GOAWAY])
    = Machine (PyState CLOSED).
Proof.
  split.
  - apply (proj1 (closed_is_terminal patched_globals table transitions_patched)
             RECV_PING).
  - apply (proj2 (closed_is_terminal patched_globals table transitions_patched)).
Defined.

End ConnectionFacts.

(** * Properties of the header utilities *)

Module UtilitiesFacts.
Import Utilities.

(** ** Flow control *)

(** C4. [guard_increment_window] returns the sum when it is at most
    2^31 - 1 and raises a [FlowControlError] when it is larger; there is no
    lower bound, so a negative increment or result goes through. *)
Theorem guard_increment_window_spec (current increment : Z) :
  ((current + increment <= 2147483647)%Z ->
     guard_increment_window current increment = Return (current + increment)%Z) /\
  ((current + increment > 2147483647)%Z ->
     guard_increment_window current increment = Raise FlowControlError) /\
  guard_increment_window (2 ^ 31 - 2) 2 = Raise FlowControlError /\
  guard_increment_window 0 (2 ^ 31 - 1) = Return (2 ^ 31 - 1)%Z /\
  guard_increment_window 5 (-10) = Return (-5)%Z.
Proof.
  unfold guard_increment_window, LARGEST_FLOW_CONTROL_WINDOW.
  change (2 ^ 31 - 1)%Z with 2147483647%Z.
  repeat split; try reflexivity.
  - intros H. destruct (Z.gtb_spec (current + increment) 2147483647); [lia|done].
  - intros H. destruct (Z.gtb_spec (current + increment) 2147483647); [done|lia].
Qed.

(** The two sides of the bound. *)
Lemma guard_increment_window_spec_witness :
  guard_increment_window 2147483000 647 = Return 2147483647%Z /\
  guard_increment_window 2147483000 648 = Raise FlowControlError.
Proof.
  split.
  - apply (proj1 (guard_increment_window_spec 2147483000 647)). lia.
  - apply (proj1 (proj2 (guard_increment_window_spec 2147483000 648))). lia.
Defined.

(** ** Informational responses *)

(** The scan returns [True] exactly when it reaches a ":status" header, with
    only pseudo-headers before it, whose value begins with "1". *)
Lemma is_informational_response_true (B : list header) :
  is_informational_response B = RBool true <->
  exists pre s post,
    B = pre ++ s :: post /\
    Forall (fun h => is_pseudo h = true /\ name h <> ":status") pre /\
    name s = ":status" /\ startswith (value s) "1" = true.
Proof.
  induction B as [|h B IH]; cbn [is_informational_response].
  - split; [discriminate|]. intros (pre & s & post & E & _). by destruct pre.
  - destruct (startswith (name h) ":") eqn:Hp; cbn [negb].
    + case_bool_decide as Hs.
      * rewrite IH. split.
        -- intros (pre & s & post & -> & Hpre & Hn & Hv).
           exists (h :: pre), s, post. split; [done|]. split; [|done].
           constructor; [|done]. by split.
        -- intros (pre & s & post & E & Hpre & Hn & Hv).
           destruct pre as [|p pre]; simplify_eq/=.
           inversion Hpre; subst. by exists pre, s, post.
      * split.
        -- intros [= Hv]. exists [], h, B. by repeat split.
        -- intros (pre & s & post & E & Hpre & Hn & Hv).
           destruct pre as [|p pre]; simplify_eq/=; [by rewrite Hv|].
           inversion Hpre as [|? ? [_ Hne]]; subst. done.
    + split; [discriminate|].
      intros (pre & s & post & E & Hpre & Hn & Hv).
      destruct pre as [|p pre]; simplify_eq/=.
      * by rewrite Hn in Hp.
      * inversion Hpre as [|? ? [Hp' _]]; subst. unfold is_pseudo in Hp'. congruence.
Qed.

(** A block made of pseudo-headers other than ":status" only (the empty
    block is one) runs the loop off its end. *)
Lemma is_informational_response_exhausted (B : list header) :
  Forall (fun h => is_pseudo h = true /\ name h <> ":status") B ->
  is_informational_response B = RNone.
Proof.
  induction 1 as [|h B [Hp Hs] _ IH]; cbn [is_informational_response]; [done|].
  unfold is_pseudo in Hp. rewrite Hp. cbn [negb]. by rewrite bool_decide_true.
Qed.

(** C8. On the empty block, and on a block that holds pseudo-headers other
    than ":status" only, [is_informational_response] does not return
    [False]: the loop ends without a [return] and the call gives [None]. *)
Theorem is_informational_response_returns_None :
  is_informational_response [] = RNone /\
  is_informational_response
    [Header PlainTuple ":method" "GET"; Header PlainTuple ":path" "/"] = RNone /\
  RNone <> RBool false.
Proof. repeat split; done. Qed.

(** ** Outbound normalization *)

Lemma rebuild_cls (h : header) (n v : bytes) : rebuild h n v = Header (cls h) n v.
Proof. unfold rebuild, isinstance_HeaderTuple. by destruct (cls h). Qed.

Lemma elem_of_SECURE_HEADERS (n : bytes) :
  n ∈ _SECURE_HEADERS <-> n = "authorization" \/ n = "proxy-authorization".
Proof. unfold _SECURE_HEADERS. set_solver. Qed.

Lemma normalize_outbound_headers_iter (B : list header) (F : HeaderValidationFlags) :
  normalize_outbound_headers (iter B) F = iter (omap normalize_one B).
Proof.
  unfold normalize_outbound_headers, _secure_headers, _strip_connection_headers,
    _strip_surrounding_whitespace, _lowercase_header_names, NeverIndexed.
  induction B as [|h B IH]; [reflexivity|].
  cbn [iter for_each omap list_omap]. rewrite !rebuild_cls. cbn [name value cls].
  unfold normalize_one at 1. cbn zeta.
  case_bool_decide as Hc; cbn [negb for_each]; [exact IH|].
  unfold forced_never_indexed. cbn [name value cls].
  case_bool_decide as Hs.
  - apply elem_of_SECURE_HEADERS in Hs.
    replace (bool_decide _ || bool_decide _) with true
      by (destruct Hs as [-> | ->]; reflexivity).
    cbn [orb iter]. by rewrite IH.
  - assert (Hno : bool_decide (strip (lower (name h)) = "authorization")
                  || bool_decide (strip (lower (name h)) = "proxy-authorization")
                  = false).
    { apply orb_false_intro; apply bool_decide_eq_false;
        intros E; apply Hs, elem_of_SECURE_HEADERS; auto. }
    rewrite Hno. cbn [orb].
    destruct (bool_decide _ && _); cbn [iter]; by rewrite IH.
Qed.

(** C7, as the code has it. Normalization emits one header for each header
    it keeps, in order; the emitted header is never-indexed when its name is
    "authorization" or "proxy-authorization", or when its name is "cookie"
    and its value is shorter than 20 octets; any other header, a "cookie"
    of 20 octets or more among them, keeps the class the caller gave it. *)
Theorem normalize_outbound_headers_sensitivity
    (B : list header) (F : HeaderValidationFlags) :
  exists out : list header,
    normalize_outbound_headers (iter B) F = iter out /\
    Forall2 normalized (kept B) out.
Proof.
  exists (omap normalize_one B). split; [apply normalize_outbound_headers_iter|].
  unfold kept. induction B as [|h B IH]; [constructor|].
  cbn [omap list_omap]. rewrite filter_cons. unfold normalize_one at 1. cbn zeta.
  case_bool_decide as Hc.
  - rewrite decide_False by (intros Hn; by apply Hn). exact IH.
  - rewrite decide_True by exact Hc.
    destruct (forced_never_indexed _ _) eqn:Hf; constructor; try exact IH;
      unfold normalized; cbn [name value cls]; rewrite Hf; done.
Qed.

(** C7, counterexample. A "cookie" header is not never-indexed only if its
    value is shorter than 20 octets: one of 20 octets that the caller passed
    as a [NeverIndexedHeaderTuple] is emitted never-indexed. *)
Lemma cookie_never_indexed_iff_short_fails :
  ~ (forall (B : list header) (F : HeaderValidationFlags) (out : list header),
       normalize_outbound_headers (iter B) F = iter out ->
       forall o, o ∈ out -> name o = "cookie" ->
         (never_indexed o = true <-> (len (value o) < 20)%Z)).
Proof.
  intros H.
  pose (c := Header NeverIndexedHeaderTuple "cookie" "01234567890123456789").
  specialize (H [c] (Flags false false false false) [c]).
  assert (Hrun : normalize_outbound_headers (iter [c]) (Flags false false false false)
                 = iter [c]) by (vm_compute; reflexivity).
  specialize (H Hrun c (list_elem_of_here _ _) eq_refl).
  destruct H as [H _]. specialize (H eq_refl). vm_compute in H. discriminate H.
Qed.

(** ** The generator stack and the one-pass scan *)

Lemma stateless_Yield (h : header) (g : gen header) (F : HeaderValidationFlags) :
  stateless (Yield h g) F =
  match field_check h with
  | Return _ => Yield h (stateless g F)
  | Raise e => Throw e
  end.
Proof.
  unfold stateless, _reject_connection_header, _reject_te,
    _reject_surrounding_whitespace, _reject_uppercase_header_fields, field_check.
  cbn [for_each].
  destruct (UPPER_RE_search (name h)); [reflexivity|]. cbn [for_each].
  destruct (surrounded (name h)) as [[]|e]; cbn [mbind outcome_bind for_each];
    try reflexivity.
  destruct (if truthy (value h) then surrounded (value h) else Return false)
    as [[]|e]; cbn [mbind outcome_bind for_each]; try reflexivity.
  destruct (bool_decide (name h = "te") && _); cbn [for_each]; [reflexivity|].
  destruct (bool_decide (name h ∈ CONNECTION_HEADERS)); reflexivity.
Qed.

Lemma pipeline_from_Throw (F : HeaderValidationFlags) (st : scan) (e : exn) :
  pipeline_from F st (Throw e) = Throw e.
Proof. unfold pipeline_from. by destruct (host_authority st). Qed.

Lemma pipeline_from_Yield (F : HeaderValidationFlags) (st : scan)
    (h : header) (g : gen header) :
  pipeline_from F st (Yield h g) =
  match step st h with
  | Return st' => Yield h (pipeline_from F st' g)
  | Raise e => Throw e
  end.
Proof.
  unfold pipeline_from at 1, step. rewrite stateless_Yield.
  destruct (field_check h) as [[]|e]; cbn [mbind outcome_bind].
  2: { cbn. by destruct (host_authority st). }
  unfold pseudo_step, is_pseudo, _custom_startswith.
  cbn [_reject_pseudo_header_fields_from]. unfold _custom_startswith.
  destruct (startswith (name h) ":").
  - destruct (bool_decide (name h ∈ seen_pseudo st)).
    { cbn. by destruct (host_authority st). }
    destruct (seen_regular st).
    { cbn. by destruct (host_authority st). }
    destruct (negb _).
    { cbn. by destruct (host_authority st). }
    cbn [mbind outcome_bind fst snd]. unfold pipeline_from.
    cbn [seen_pseudo seen_regular host_authority].
    destruct (host_authority st) as [[a b]|]; [|reflexivity].
    cbn [fmap option_fmap option_map _validate_host_authority_header_from fst snd].
    unfold host_step. cbn [fst snd].
    repeat case_bool_decide; reflexivity.
  - cbn [mbind outcome_bind fst snd]. unfold pipeline_from.
    cbn [seen_pseudo seen_regular host_authority].
    destruct (host_authority st) as [[a b]|]; [|reflexivity].
    cbn [fmap option_fmap option_map _validate_host_authority_header_from fst snd].
    unfold host_step. cbn [fst snd].
    repeat case_bool_decide; reflexivity.
Qed.

Lemma pipeline_from_Stop (F : HeaderValidationFlags) (st : scan) :
  list_ (pipeline_from F st Stop) = (_ ← finish F st; Return []).
Proof.
  unfold pipeline_from, finish, stateless, _reject_connection_header, _reject_te,
    _reject_surrounding_whitespace, _reject_uppercase_header_fields.
  cbn [for_each _reject_pseudo_header_fields_from].
  destruct (is_trailer F && _).
  { by destruct (host_authority st). }
  destruct (is_response_header F); cbn [andb].
  - destruct (negb _); destruct (host_authority st) as [[a b]|]; try reflexivity.
    unfold host_finish. cbn [_validate_host_authority_header_from fst snd].
    destruct (negb _ && negb _); [reflexivity|].
    destruct (_ && _ && _); reflexivity.
  - destruct (host_authority st) as [[a b]|]; try reflexivity.
    unfold host_finish. cbn [_validate_host_authority_header_from fst snd].
    destruct (negb _ && negb _); [reflexivity|].
    destruct (_ && _ && _); reflexivity.
Qed.

(** The generator stack computes the one-pass scan. *)
Lemma pipeline_from_scan (F : HeaderValidationFlags) (B : list header) (st : scan) :
  list_ (pipeline_from F st (iter B)) = scan_from F st B.
Proof.
  revert st. induction B as [|h B IH]; intros st; cbn [iter scan_from].
  - apply pipeline_from_Stop.
  - rewrite pipeline_from_Yield.
    destruct (step st h) as [st'|e]; [|reflexivity].
    cbn [list_ mbind outcome_bind]. by rewrite IH.
Qed.

Lemma validate_headers_scan (B : list header) (F : HeaderValidationFlags) :
  validate_headers B F = scan_from F (scan_init F) B.
Proof.
  rewrite <- pipeline_from_scan.
  unfold validate_headers, pipeline_from, scan_init, _check_host_authority_header,
    _reject_pseudo_header_fields, _validate_host_authority_header, stateless.
  cbn [seen_pseudo seen_regular host_authority].
  by destruct (is_response_header F || is_trailer F).
Qed.

(** ** Indexing *)

Lemma length_octets (s : bytes) : length (octets s) = String.length s.
Proof. induction s as [|c s IH]; cbn; congruence. Qed.

Lemma getitem_empty (i : Z) : getitem "" i = Raise IndexError.
Proof.
  unfold getitem, len. cbn [String.length octets Z.of_nat].
  destruct (i <? 0)%Z; destruct (_ <? 0)%Z; reflexivity.
Qed.

Lemma getitem_first (c : ascii) (s : bytes) :
  getitem (String c s) 0 = Return (ord c).
Proof. reflexivity. Qed.

Lemma getitem_last (c : ascii) (s : bytes) :
  exists n, getitem (String c s) (-1) = Return n.
Proof.
  unfold getitem. change (-1 <? 0)%Z with true. cbn match.
  assert (Hlen : (-1 + len (String c s))%Z = Z.of_nat (String.length s))
    by (unfold len; cbn [String.length]; lia).
  rewrite Hlen.
  destruct (Z.ltb_spec (Z.of_nat (String.length s)) 0) as [Hneg|_]; [lia|].
  rewrite Nat2Z.id.
  destruct (octets (String c s) !! String.length s) as [d|] eqn:E; [by eexists|].
  apply lookup_ge_None in E. rewrite length_octets in E. cbn in E. lia.
Qed.

Lemma surrounded_empty : surrounded "" = Raise IndexError.
Proof. reflexivity. Qed.

Lemma surrounded_nonempty (c : ascii) (s : bytes) :
  exists b, surrounded (String c s) = Return b.
Proof.
  unfold surrounded. rewrite getitem_first. cbn [mbind outcome_bind].
  destruct (bool_decide (ord c ∈ _WHITESPACE)); [by eexists|].
  destruct (getitem_last c s) as [n ->]. cbn [mbind outcome_bind]. by eexists.
Qed.

(** ** The checks on one header *)

(** A header with an empty name gets through the upper-case check and fails
    in the whitespace check, on the index into its name. *)
Lemma field_check_empty_name (h : header) :
  name h = "" -> field_check h = Raise IndexError.
Proof. intros E. unfold field_check. rewrite E. reflexivity. Qed.

(** The checks on one header raise a [ProtocolError], or an [IndexError] on
    an empty name. *)
Lemma field_check_Raise (h : header) (e : exn) :
  field_check h = Raise e ->
  e = ProtocolError \/ (e = IndexError /\ name h = "").
Proof.
  unfold field_check.
  destruct (UPPER_RE_search (name h)); [intros [= <-]; by left|].
  destruct (name h) as [|c n].
  { rewrite surrounded_empty. intros [= <-]. by right. }
  destruct (surrounded_nonempty c n) as [b ->]. cbn [mbind outcome_bind].
  destruct b; [intros [= <-]; by left|].
  destruct (value h) as [|d v]; cbn [truthy mbind outcome_bind].
  - repeat match goal with
           | |- context [if ?b then _ else _] => destruct b
           end; intros [= <-]; by left.
  - destruct (surrounded_nonempty d v) as [b ->]. cbn [mbind outcome_bind].
    repeat match goal with
           | |- context [if ?b then _ else _] => destruct b
           end; intros [= <-]; by left.
Qed.

Lemma pseudo_step_Raise (seen : gset bytes) (regular : bool) (h : header) (e : exn) :
  pseudo_step seen regular h = Raise e -> e = ProtocolError.
Proof.
  unfold pseudo_step.
  repeat match goal with
         | |- context [if ?b then _ else _] => destruct b
         end; by intros [= <-].
Qed.

Lemma step_Raise (st : scan) (h : header) (e : exn) :
  step st h = Raise e ->
  e = ProtocolError \/ (e = IndexError /\ name h = "").
Proof.
  unfold step. destruct (field_check h) as [[]|e'] eqn:Hf; cbn [mbind outcome_bind].
  - destruct (pseudo_step _ _ h) as [sr|e'] eqn:Hp; cbn [mbind outcome_bind];
      [discriminate|].
    intros [= <-]. left. by eapply pseudo_step_Raise.
  - intros [= <-]. by apply field_check_Raise.
Qed.

Lemma step_empty_name (st : scan) (h : header) :
  name h = "" -> step st h = Raise IndexError.
Proof. intros E. unfold step. by rewrite field_check_empty_name. Qed.

Lemma host_finish_Raise (ah : option bytes * option bytes) (e : exn) :
  host_finish ah = Raise e -> e = ProtocolError.
Proof.
  unfold host_finish.
  repeat match goal with
         | |- context [if ?b then _ else _] => destruct b
         end; by intros [= <-].
Qed.

Lemma finish_Raise (F : HeaderValidationFlags) (st : scan) (e : exn) :
  finish F st = Raise e -> e = ProtocolError.
Proof.
  unfold finish.
  destruct (is_trailer F && _); [by intros [= <-]|].
  destruct (is_response_header F && _); [by intros [= <-]|].
  destruct (host_authority st); [apply host_finish_Raise|discriminate].
Qed.

(** ** What validation returns and raises *)

Lemma scan_from_outcome (F : HeaderValidationFlags) (B : list header) (st : scan) :
  scan_from F st B = Return B \/
  scan_from F st B = Raise ProtocolError \/
  (scan_from F st B = Raise IndexError /\ exists h, h ∈ B /\ name h = "").
Proof.
  revert st. induction B as [|h B IH]; intros st; cbn [scan_from].
  - destruct (finish F st) as [[]|e] eqn:Hf; cbn [mbind outcome_bind]; [by left|].
    apply finish_Raise in Hf as ->. right; by left.
  - destruct (step st h) as [st'|e] eqn:Hs; cbn [mbind outcome_bind].
    + destruct (IH st') as [-> | [-> | [-> (x & Hx & Hn)]]]; cbn [mbind outcome_bind].
      * by left.
      * right; by left.
      * right; right. split; [done|]. exists x. split; [by apply list_elem_of_further|done].
    + apply step_Raise in Hs as [-> | [-> Hn]].
      * right; by left.
      * right; right. split; [done|]. exists h. split; [apply list_elem_of_here|done].
Qed.

(** C5, as the code has it. [validate_headers] returns the block it was
    given, element for element, or raises one exception: a [ProtocolError],
    or an [IndexError], which only a block that has a field with an empty
    name can cause. It never returns a modified sequence. *)
Theorem validate_headers_returns_block_or_raises
    (B : list header) (F : HeaderValidationFlags) :
  (validate_headers B F = Return B \/
   validate_headers B F = Raise ProtocolError \/
   (validate_headers B F = Raise IndexError /\ exists h, h ∈ B /\ name h = "")) /\
  (forall L, validate_headers B F = Return L -> L = B).
Proof.
  rewrite validate_headers_scan.
  pose proof (scan_from_outcome F B (scan_init F)) as H. split; [exact H|].
  intros L HL. rewrite HL in H.
  destruct H as [[= ->] | [[=] | [[=] _]]]. reflexivity.
Qed.

(** A minimal request block comes back as it was given. *)
Lemma validate_headers_returns_block_or_raises_witness :
  validate_headers
    [Header HeaderTuple ":method" "GET"; Header HeaderTuple ":scheme" "https";
     Header HeaderTuple ":authority" "x"; Header HeaderTuple ":path" "/"]
    (Flags false false false false)
  = Return
      [Header HeaderTuple ":method" "GET"; Header HeaderTuple ":scheme" "https";
       Header HeaderTuple ":authority" "x"; Header HeaderTuple ":path" "/"].
Proof.
  destruct (proj1 (validate_headers_returns_block_or_raises
              [Header HeaderTuple ":method" "GET"; Header HeaderTuple ":scheme" "https";
               Header HeaderTuple ":authority" "x"; Header HeaderTuple ":path" "/"]
              (Flags false false false false))) as [H | [H | [H _]]].
  - exact H.
  - vm_compute in H. discriminate H.
  - vm_compute in H. discriminate H.
Defined.

(** C5, counterexample. A block with one field whose name is empty neither
    comes back nor raises a [ProtocolError]. *)
Lemma validate_headers_Return_or_ProtocolError_fails :
  ~ (forall (B : list header) (F : HeaderValidationFlags),
       validate_headers B F = Return B \/
       validate_headers B F = Raise ProtocolError).
Proof.
  intros H.
  destruct (H [Header PlainTuple "" "x"] (Flags false false false false))
    as [E|E]; vm_compute in E; discriminate E.
Qed.

(** ** Empty names *)

Lemma scan_from_empty_name (F : HeaderValidationFlags) (pre : list header)
    (h : header) (post : list header) (st : scan) :
  name h = "" ->
  scan_from F st (pre ++ h :: post) = Raise IndexError \/
  (forall post', scan_from F st (pre ++ post') = Raise ProtocolError).
Proof.
  intros Hn. revert st. induction pre as [|p pre IH]; intros st.
  - left. cbn [app scan_from]. by rewrite step_empty_name.
  - cbn [app scan_from].
    destruct (step st p) as [st'|e] eqn:Hs; cbn [mbind outcome_bind].
    + destruct (IH st') as [-> | Hpre]; [by left|].
      right. intros post'. by rewrite Hpre.
    + apply step_Raise in Hs as [-> | [-> _]]; [right|left]; done.
Qed.

(** C10, as the code has it. A block that has a field with an empty name is
    never returned. The call raises an [IndexError], from the index into the
    empty name, unless a field before it is rejected first: then the
    [ProtocolError] is the one that every block beginning with the same
    fields raises. When the field with the empty name comes first the
    [IndexError] is certain. *)
Theorem validate_headers_empty_name (F : HeaderValidationFlags)
    (pre : list header) (h : header) (post : list header) :
  name h = "" ->
  (forall L, validate_headers (pre ++ h :: post) F <> Return L) /\
  (validate_headers (pre ++ h :: post) F = Raise IndexError \/
   forall post', validate_headers (pre ++ post') F = Raise ProtocolError) /\
  validate_headers (h :: post) F = Raise IndexError.
Proof.
  intros Hn.
  assert (Hmain : validate_headers (pre ++ h :: post) F = Raise IndexError \/
            forall post', validate_headers (pre ++ post') F = Raise ProtocolError).
  { destruct (scan_from_empty_name F pre h post (scan_init F) Hn) as [H|H].
    - left. by rewrite validate_headers_scan.
    - right. intros post'. by rewrite validate_headers_scan. }
  split; [|split; [exact Hmain|]].
  - intros L HL. destruct Hmain as [H|H].
    + rewrite H in HL. discriminate HL.
    + rewrite (H (h :: post)) in HL. discriminate HL.
  - rewrite validate_headers_scan. cbn [scan_from]. by rewrite step_empty_name.
Qed.

(** An empty name after an accepted field. *)
Lemma validate_headers_empty_name_witness :
  validate_headers
    [Header PlainTuple ":method" "GET"; Header PlainTuple "" "x";
     Header PlainTuple "host" "a"] (Flags false false false false)
  = Raise IndexError.
Proof.
  destruct (validate_headers_empty_name (Flags false false false false)
              [Header PlainTuple ":method" "GET"] (Header PlainTuple "" "x")
              [Header PlainTuple "host" "a"] eq_refl) as (_ & [H|H] & _).
  - exact H.
  - specialize (H [Header PlainTuple "host" "a"]). vm_compute in H. discriminate H.
Defined.

(** C10, counterexample. A field with an empty name does not always end the
    call with an [IndexError]: an upper-case name before it is rejected
    first, with a [ProtocolError]. *)
Lemma empty_name_IndexError_fails :
  ~ (forall (B : list header) (F : HeaderValidationFlags),
       (exists h, h ∈ B /\ name h = "") ->
       validate_headers B F = Raise IndexError).
Proof.
  intros H.
  specialize (H [Header PlainTuple "A" "x"; Header PlainTuple "" "y"]
                (Flags false false false false)).
  assert (Hex : exists h, h ∈ [Header PlainTuple "A" "x"; Header PlainTuple "" "y"]
                  /\ name h = "").
  { exists (Header PlainTuple "" "y"). split; [|reflexivity].
    apply list_elem_of_further, list_elem_of_here. }
  specialize (H Hex). vm_compute in H. discriminate H.
Qed.

(** ** Blocks the scan accepts *)

Lemma scan_from_Return_nil (F : HeaderValidationFlags) (st : scan) (L : list header) :
  scan_from F st [] = Return L -> finish F st = Return ().
Proof. cbn [scan_from]. by destruct (finish F st) as [[]|e]. Qed.

Lemma scan_from_Return_cons (F : HeaderValidationFlags) (st : scan)
    (h : header) (B L : list header) :
  scan_from F st (h :: B) = Return L ->
  exists st' L', step st h = Return st' /\ scan_from F st' B = Return L'.
Proof.
  cbn [scan_from]. destruct (step st h) as [st'|e]; cbn [mbind outcome_bind]; [|done].
  destruct (scan_from F st' B) as [L'|e] eqn:E; cbn [mbind outcome_bind]; [|done].
  intros _. by exists st', L'.
Qed.

(** What an accepted header does to the local variables. *)
Lemma step_Return (st st' : scan) (h : header) :
  step st h = Return st' ->
  host_authority st' = ((fun ah => host_step ah h) <$> host_authority st) /\
  ((is_pseudo h = true /\ (name h ∉ seen_pseudo st) /\ seen_regular st = false /\
    name h ∈ _ALLOWED_PSEUDO_HEADER_FIELDS /\
    seen_pseudo st' = {[ name h ]} ∪ seen_pseudo st /\ seen_regular st' = false) \/
   (is_pseudo h = false /\
    seen_pseudo st' = seen_pseudo st /\ seen_regular st' = true)).
Proof.
  unfold step. destruct (field_check h) as [[]|e]; cbn [mbind outcome_bind]; [|done].
  unfold pseudo_step. destruct (is_pseudo h).
  - case_bool_decide as Hseen; [done|].
    destruct (seen_regular st) eqn:Hreg; [done|].
    case_bool_decide as Hallowed; cbn [negb mbind outcome_bind]; [|done].
    intros [= <-]. cbn [host_authority seen_pseudo seen_regular fst snd].
    split; [done|]. left. done.
  - cbn [mbind outcome_bind]. intros [= <-].
    cbn [host_authority seen_pseudo seen_regular fst snd].
    split; [done|]. right. done.
Qed.

Lemma accepted_pseudo (F : HeaderValidationFlags) (B L : list header) (st : scan)
    (y : header) :
  scan_from F st B = Return L -> y ∈ B -> is_pseudo y = true ->
  (name y ∉ seen_pseudo st) /\ seen_regular st = false /\
  name y ∈ _ALLOWED_PSEUDO_HEADER_FIELDS.
Proof.
  revert st L. induction B as [|h B IH]; intros st L Hacc Hy Hp.
  - by apply elem_of_nil in Hy.
  - apply scan_from_Return_cons in Hacc as (st' & L' & Hs & Hacc).
    apply step_Return in Hs as [_ Hs].
    apply elem_of_cons in Hy as [-> | Hy].
    + destruct Hs as [(_ & ? & ? & ? & _) | (Hnp & _)]; [done|congruence].
    + destruct (IH st' L' Hacc Hy Hp) as (Hseen & Hreg & Hall).
      destruct Hs as [(_ & _ & ? & _ & Hs' & _) | (_ & _ & Hr')]; [|congruence].
      rewrite Hs' in Hseen. split; [|done].
      intros Hin. apply Hseen, elem_of_union. by right.
Qed.

Lemma accepted_no_duplicate (F : HeaderValidationFlags) (B L : list header)
    (st : scan) (i j : nat) (x y : header) :
  scan_from F st B = Return L ->
  i < j -> B !! i = Some x -> B !! j = Some y ->
  is_pseudo x = true -> name y = name x -> False.
Proof.
  revert st L i j. induction B as [|h B IH]; intros st L i j Hacc Hij Hi Hj Hp Hn.
  - done.
  - apply scan_from_Return_cons in Hacc as (st' & L' & Hs & Hacc).
    destruct j as [|j]; [lia|]. cbn in Hj.
    destruct i as [|i]; cbn in Hi.
    + injection Hi as ->. apply step_Return in Hs as [_ Hs].
      destruct Hs as [(_ & _ & _ & _ & Hs' & _) | (Hnp & _)]; [|congruence].
      assert (Hy : y ∈ B) by (apply list_elem_of_lookup; eauto).
      assert (Hpy : is_pseudo y = true) by (unfold is_pseudo in *; by rewrite Hn).
      destruct (accepted_pseudo F B L' st' y Hacc Hy Hpy) as [Hseen _].
      rewrite Hs', Hn in Hseen. apply Hseen, elem_of_union. left.
      by apply elem_of_singleton.
    + eapply (IH st' L' i j); eauto. lia.
Qed.

Lemma accepted_no_pseudo_after_regular (F : HeaderValidationFlags)
    (B L : list header) (st : scan) (i j : nat) (x y : header) :
  scan_from F st B = Return L ->
  i < j -> B !! i = Some x -> B !! j = Some y ->
  is_pseudo x = false -> is_pseudo y = true -> False.
Proof.
  revert st L i j. induction B as [|h B IH]; intros st L i j Hacc Hij Hi Hj Hx Hy.
  - done.
  - apply scan_from_Return_cons in Hacc as (st' & L' & Hs & Hacc).
    destruct j as [|j]; [lia|]. cbn in Hj.
    destruct i as [|i]; cbn in Hi.
    + injection Hi as ->. apply step_Return in Hs as [_ Hs].
      destruct Hs as [(Hp & _) | (_ & _ & Hr')]; [congruence|].
      assert (HyB : y ∈ B) by (apply list_elem_of_lookup; eauto).
      destruct (accepted_pseudo F B L' st' y Hacc HyB Hy) as (_ & Hreg & _).
      congruence.
    + eapply (IH st' L' i j); eauto. lia.
Qed.

Lemma accepted_trailer (F : HeaderValidationFlags) (B L : list header) (st : scan) :
  scan_from F st B = Return L -> is_trailer F = true ->
  seen_pseudo st = ∅ /\ forall y, y ∈ B -> is_pseudo y = false.
Proof.
  intros Hacc Ht. revert st L Hacc. induction B as [|h B IH]; intros st L Hacc.
  - apply scan_from_Return_nil in Hacc. unfold finish in Hacc. rewrite Ht in Hacc.
    cbn [andb] in Hacc. case_bool_decide as He; [done|].
    split; [exact He|]. intros y Hy. by apply elem_of_nil in Hy.
  - apply scan_from_Return_cons in Hacc as (st' & L' & Hs & Hacc).
    destruct (IH st' L' Hacc) as [Hempty Hrest].
    apply step_Return in Hs as [_ Hs].
    destruct Hs as [(_ & _ & _ & _ & Hs' & _) | (Hnp & Hs' & _)].
    + rewrite Hs' in Hempty.
      assert (Hin : name h ∈ (∅ : gset bytes)).
      { rewrite <- Hempty. apply elem_of_union. left. by apply elem_of_singleton. }
      by apply not_elem_of_empty in Hin.
    + split; [congruence|]. intros y Hy.
      apply elem_of_cons in Hy as [-> | Hy]; [done|by apply Hrest].
Qed.

Lemma accepted_response (F : HeaderValidationFlags) (B L : list header) (st : scan) :
  scan_from F st B = Return L -> is_response_header F = true ->
  ":status" ∈ seen_pseudo st \/ exists x, x ∈ B /\ name x = ":status".
Proof.
  intros Hacc Hr. revert st L Hacc. induction B as [|h B IH]; intros st L Hacc.
  - apply scan_from_Return_nil in Hacc. unfold finish in Hacc. rewrite Hr in Hacc.
    destruct (is_trailer F && _); [done|]. cbn [andb] in Hacc.
    case_bool_decide as Hin; [by left|done].
  - apply scan_from_Return_cons in Hacc as (st' & L' & Hs & Hacc).
    apply step_Return in Hs as [_ Hs].
    destruct (IH st' L' Hacc) as [Hin | (x & Hx & Hn)].
    + destruct Hs as [(_ & _ & _ & _ & Hs' & _) | (_ & Hs' & _)].
      * rewrite Hs' in Hin. apply elem_of_union in Hin as [Hin|Hin]; [|by left].
        apply elem_of_singleton in Hin. right. exists h.
        split; [apply list_elem_of_here|done].
      * left. congruence.
    + right. exists x. split; [by apply list_elem_of_further|done].
Qed.

Lemma pseudo_violation_not_accepted (F : HeaderValidationFlags) (B L : list header) :
  pseudo_violation F B -> scan_from F (scan_init F) B <> Return L.
Proof.
  intros Hv Hacc. destruct Hv as [i j x y Hij Hi Hj Hp Hn | i j x y Hij Hi Hj Hx Hy
                                 | x Hx Hp Hna | x Ht Hx Hp | Hr Hns].
  - eapply accepted_no_duplicate; eauto.
  - eapply accepted_no_pseudo_after_regular; eauto.
  - by destruct (accepted_pseudo F B L _ x Hacc Hx Hp) as (_ & _ & ?).
  - destruct (accepted_trailer F B L _ Hacc Ht) as [_ Hall].
    specialize (Hall x Hx). congruence.
  - destruct (accepted_response F B L _ Hacc Hr) as [Hin | (x & Hx & Hn)].
    + unfold scan_init in Hin. cbn [seen_pseudo] in Hin. set_solver.
    + by apply (Hns x).
Qed.

(** C6, as the code has it. A block in which a pseudo-header is duplicated,
    follows a regular header or is not one of the five allowed, a trailer
    block with a pseudo-header, and a response block without ":status" are
    never returned: [validate_headers] raises a [ProtocolError], unless a
    field with an empty name is reached first, which raises an
    [IndexError]. *)
Theorem validate_headers_pseudo_discipline
    (B : list header) (F : HeaderValidationFlags) :
  pseudo_violation F B ->
  validate_headers B F = Raise ProtocolError \/
  (validate_headers B F = Raise IndexError /\ exists h, h ∈ B /\ name h = "").
Proof.
  intros Hv. rewrite validate_headers_scan.
  destruct (scan_from_outcome F B (scan_init F)) as [H|H]; [|exact H].
  by apply pseudo_violation_not_accepted in H.
Qed.

(** ":method" twice. *)
Lemma validate_headers_pseudo_discipline_witness :
  validate_headers
    [Header PlainTuple ":method" "GET"; Header PlainTuple ":method" "GET"]
    (Flags false false false false)
  = Raise ProtocolError.
Proof.
  destruct (validate_headers_pseudo_discipline
              [Header PlainTuple ":method" "GET"; Header PlainTuple ":method" "GET"]
              (Flags false false false false)) as [H | [H _]].
  - apply (duplicated _ _ 0 1 (Header PlainTuple ":method" "GET")
             (Header PlainTuple ":method" "GET")); [lia|reflexivity..].
  - exact H.
  - vm_compute in H. discriminate H.
Defined.

(** C6, counterexample. A response block without ":status" whose only field
    has an empty name raises an [IndexError], not a [ProtocolError]. *)
Lemma pseudo_violation_ProtocolError_fails :
  ~ (forall (B : list header) (F : HeaderValidationFlags),
       pseudo_violation F B -> validate_headers B F = Raise ProtocolError).
Proof.
  intros H.
  specialize (H [Header PlainTuple "" "x"] (Flags false false true false)).
  assert (Hv : pseudo_violation (Flags false false true false)
                 [Header PlainTuple "" "x"]).
  { apply response_without_status; [reflexivity|].
    intros x Hx. apply list_elem_of_singleton in Hx as ->. discriminate. }
  specialize (H Hv). vm_compute in H. discriminate H.
Qed.

(** ** :authority and Host *)

Lemma last_value_snoc (n : bytes) (B : list header) (x : header) :
  last_value n (B ++ [x]) =
  if decide (name x = n) then Some (value x) else last_value n B.
Proof.
  unfold last_value. rewrite filter_app, filter_cons, filter_nil.
  destruct (decide (name x = n)).
  - by rewrite last_snoc.
  - by rewrite app_nil_r.
Qed.

(** The two local variables after the loop hold the last values seen. *)
Lemma foldl_host_step (ah : option bytes * option bytes) (B : list header) :
  foldl host_step ah B =
  (from_option Some ah.1 (last_value ":authority" B),
   from_option Some ah.2 (last_value "host" B)).
Proof.
  induction B as [|x B IH] using rev_ind.
  - by destruct ah.
  - rewrite foldl_app. cbn [foldl]. rewrite IH, !last_value_snoc.
    unfold host_step. cbn [fst snd].
    case_bool_decide as Ha.
    + rewrite decide_True by done. rewrite decide_False by (rewrite Ha; done).
      reflexivity.
    + rewrite (decide_False (P := name x = ":authority")) by done.
      case_bool_decide as Hh.
      * by rewrite decide_True.
      * by rewrite decide_False.
Qed.

Lemma accepted_host_finish (F : HeaderValidationFlags) (B L : list header)
    (st : scan) (ah : option bytes * option bytes) :
  scan_from F st B = Return L -> host_authority st = Some ah ->
  host_finish (foldl host_step ah B) = Return ().
Proof.
  revert st L ah. induction B as [|h B IH]; intros st L ah Hacc Hah.
  - apply scan_from_Return_nil in Hacc. unfold finish in Hacc. rewrite Hah in Hacc.
    destruct (is_trailer F && _); [done|].
    destruct (is_response_header F && _); done.
  - apply scan_from_Return_cons in Hacc as (st' & L' & Hs & Hacc).
    apply step_Return in Hs as [Hah' _]. rewrite Hah in Hah'.
    cbn [foldl]. by apply (IH st' L').
Qed.

Lemma disagreement_not_accepted (F : HeaderValidationFlags) (B L : list header) :
  is_response_header F || is_trailer F = false ->
  (last_value ":authority" B = None /\ last_value "host" B = None) \/
  (exists a h, last_value ":authority" B = Some a /\
               last_value "host" B = Some h /\ a <> h) ->
  scan_from F (scan_init F) B <> Return L.
Proof.
  intros Hskip Hbad Hacc.
  assert (Hah : host_authority (scan_init F) = Some (None, None))
    by (unfold scan_init; by rewrite Hskip).
  pose proof (accepted_host_finish F B L _ _ Hacc Hah) as Hfin.
  rewrite foldl_host_step in Hfin. cbn [fst snd] in Hfin.
  destruct Hbad as [[Ha Hh] | (a & h & Ha & Hh & Hne)]; rewrite Ha, Hh in Hfin.
  - vm_compute in Hfin. discriminate Hfin.
  - unfold host_finish in Hfin. cbn [from_option fst snd] in Hfin.
    rewrite !bool_decide_true in Hfin by done. cbn [negb andb] in Hfin.
    rewrite bool_decide_true in Hfin by congruence. discriminate Hfin.
Qed.

(** C9, as the code has it. Under [is_response_header] or [is_trailer] the
    last check hands its input on untouched. Otherwise a block with neither
    ":authority" nor "host", and a block in which the last ":authority" and
    the last "host" have different values, are never returned:
    [validate_headers] raises a [ProtocolError], unless a field with an
    empty name is reached first, which raises an [IndexError]. A second
    "host" header is not an error in itself: the last one is compared, and
    under the two flags "host" headers are not looked at. *)
Theorem host_authority_agreement (B : list header) (F : HeaderValidationFlags) :
  (is_response_header F || is_trailer F = true ->
     forall g, _check_host_authority_header g F = g) /\
  (is_response_header F || is_trailer F = false ->
     (last_value ":authority" B = None /\ last_value "host" B = None) \/
     (exists a h, last_value ":authority" B = Some a /\
                  last_value "host" B = Some h /\ a <> h) ->
     validate_headers B F = Raise ProtocolError \/
     (validate_headers B F = Raise IndexError /\ exists x, x ∈ B /\ name x = "")) /\
  (let block := [Header PlainTuple ":authority" "b"; Header PlainTuple "host" "a";
                 Header PlainTuple "host" "b"] in
   validate_headers block (Flags false false false false) = Return block) /\
  (let response := [Header PlainTuple ":status" "200";
                    Header PlainTuple "host" "a"; Header PlainTuple "host" "b"] in
   validate_headers response (Flags false false true false) = Return response) /\
  (let trailer := [Header PlainTuple "x-checksum" "1"] in
   validate_headers trailer (Flags false true false false) = Return trailer).
Proof.
  split; [|split; [|split; [|split]]].
  - intros Hskip g. unfold _check_host_authority_header. by rewrite Hskip.
  - intros Hskip Hbad. rewrite validate_headers_scan.
    destruct (scan_from_outcome F B (scan_init F)) as [H|H]; [|exact H].
    by apply disagreement_not_accepted in H.
  - vm_compute. reflexivity.
  - vm_compute. reflexivity.
  - vm_compute. reflexivity.
Qed.

(** A trailer block is handed on; a request whose ":authority" and "host"
    differ is rejected. *)
Lemma host_authority_agreement_witness :
  _check_host_authority_header Stop (Flags false true false false) = Stop /\
  validate_headers
    [Header PlainTuple ":authority" "example.com";
     Header PlainTuple "host" "example.org"]
    (Flags false false false false)
  = Raise ProtocolError.
Proof.
  split.
  - apply (proj1 (host_authority_agreement [] (Flags false true false false))).
    reflexivity.
  - destruct (proj1 (proj2 (host_authority_agreement
        [Header PlainTuple ":authority" "example.com";
         Header PlainTuple "host" "example.org"]
        (Flags false false false false)))) as [H | [H _]].
    + reflexivity.
    + right. exists "example.com", "example.org".
      split; [reflexivity|]. split; [reflexivity|]. discriminate.
    + exact H.
    + vm_compute in H. discriminate H.
Defined.

(** C9, counterexample. A request block with neither ":authority" nor "host"
    whose only field has an empty name raises an [IndexError], not a
    [ProtocolError]. *)
Lemma missing_host_authority_ProtocolError_fails :
  ~ (forall (B : list header) (F : HeaderValidationFlags),
       is_response_header F || is_trailer F = false ->
       last_value ":authority" B = None -> last_value "host" B = None ->
       validate_headers B F = Raise ProtocolError).
Proof.
  intros H.
  specialize (H [Header PlainTuple "" "x"] (Flags false false false false)
                eq_refl eq_refl eq_refl).
  vm_compute in H. discriminate H.
Qed.

End UtilitiesFacts.

(** * Further properties of the header utilities *)

Module UtilitiesMore.
Import Utilities UtilitiesFacts.

(** ** Octet strings *)

Lemma octets_of_octets (l : list ascii) : octets (of_octets l) = l.
Proof. induction l as [|c l IH]; cbn; congruence. Qed.

Lemma of_octets_octets (s : bytes) : of_octets (octets s) = s.
Proof. induction s as [|c s IH]; cbn; congruence. Qed.

Lemma octets_nil (s : bytes) : octets s = [] -> s = "".
Proof. by destruct s. Qed.

Lemma isupper_spec (c : ascii) : isupper c = true <-> (65 <= ord c <= 90)%N.
Proof.
  unfold isupper. rewrite andb_true_iff, !N.leb_le. done.
Qed.

Lemma UPPER_RE_search_false (s : bytes) :
  UPPER_RE_search s = false <->
  Forall (fun c => ~ (65 <= ord c <= 90)%N) (octets s).
Proof.
  unfold UPPER_RE_search. induction (octets s) as [|c l IH]; cbn [existsb].
  - split; [constructor|done].
  - rewrite orb_false_iff, IH, Forall_cons, <- isupper_spec.
    by destruct (isupper c); intuition.
Qed.

Lemma lower_octet_not_upper (c : ascii) : isupper (lower_octet c) = false.
Proof. destruct c as [[] [] [] [] [] [] [] []]; vm_compute; reflexivity. Qed.

Lemma lower_octet_isspace (c : ascii) : isspace (lower_octet c) = isspace c.
Proof. destruct c as [[] [] [] [] [] [] [] []]; vm_compute; reflexivity. Qed.

Lemma lower_octet_id (c : ascii) : isupper c = false -> lower_octet c = c.
Proof. unfold lower_octet. by intros ->. Qed.

Lemma octets_lower (s : bytes) : octets (lower s) = lower_octet <$> octets s.
Proof. unfold lower. apply octets_of_octets. Qed.

Lemma lower_no_upper (s : bytes) : UPPER_RE_search (lower s) = false.
Proof.
  unfold UPPER_RE_search. rewrite octets_lower.
  induction (octets s) as [|c l IH]; [reflexivity|].
  cbn [fmap list_fmap existsb]. by rewrite lower_octet_not_upper.
Qed.

Lemma lower_id (s : bytes) : UPPER_RE_search s = false -> lower s = s.
Proof.
  unfold UPPER_RE_search, lower. rewrite <- (of_octets_octets s) at 3.
  induction (octets s) as [|c l IH]; [reflexivity|].
  cbn [existsb fmap list_fmap of_octets]. intros [Hc Hl]%orb_false_iff.
  by rewrite lower_octet_id, IH.
Qed.

(** ** Stripping *)

Lemma lstrip_octets_head (l : list ascii) (c : ascii) :
  head (lstrip_octets l) = Some c -> isspace c = false.
Proof.
  induction l as [|d l IH]; cbn [lstrip_octets]; [done|].
  destruct (isspace d) eqn:E; [exact IH|]. cbn. by intros [= <-].
Qed.

Lemma lstrip_octets_id (l : list ascii) :
  (forall c, head l = Some c -> isspace c = false) -> lstrip_octets l = l.
Proof.
  destruct l as [|d l]; [done|]. intros H. cbn [lstrip_octets].
  by rewrite (H d eq_refl).
Qed.

Lemma lstrip_octets_snoc (l : list ascii) (c : ascii) :
  isspace c = false -> lstrip_octets (l ++ [c]) = lstrip_octets l ++ [c].
Proof.
  intros Hc. induction l as [|d l IH]; cbn [app lstrip_octets].
  - by rewrite Hc.
  - destruct (isspace d); [exact IH|reflexivity].
Qed.

Lemma lstrip_octets_Forall (P : ascii -> Prop) (l : list ascii) :
  Forall P l -> Forall P (lstrip_octets l).
Proof.
  induction 1 as [|d l Hd Hl IH]; cbn [lstrip_octets]; [constructor|].
  destruct (isspace d); [exact IH|by constructor].
Qed.

Lemma rev_reverse (l : list ascii) : rev l = reverse l.
Proof. unfold reverse. apply rev_alt. Qed.

Lemma octets_strip (s : bytes) : octets (strip s) = strip_octets (octets s).
Proof. unfold strip. apply octets_of_octets. Qed.

Lemma strip_octets_Forall (P : ascii -> Prop) (l : list ascii) :
  Forall P l -> Forall P (strip_octets l).
Proof.
  intros H. unfold strip_octets.
  apply Forall_rev, lstrip_octets_Forall, Forall_rev, lstrip_octets_Forall, H.
Qed.

Lemma strip_octets_head (l : list ascii) (c : ascii) :
  head (strip_octets l) = Some c -> isspace c = false.
Proof.
  unfold strip_octets.
  pose proof (lstrip_octets_head l) as Hhead.
  destruct (lstrip_octets l) as [|d m]; [done|].
  specialize (Hhead d eq_refl).
  cbn [rev]. rewrite lstrip_octets_snoc, rev_app_distr by done.
  cbn. by intros [= <-].
Qed.

Lemma strip_octets_last (l : list ascii) (c : ascii) :
  last (strip_octets l) = Some c -> isspace c = false.
Proof.
  unfold strip_octets. rewrite rev_reverse, last_reverse.
  apply lstrip_octets_head.
Qed.

Lemma strip_octets_id (l : list ascii) :
  (forall c, head l = Some c -> isspace c = false) ->
  (forall c, last l = Some c -> isspace c = false) ->
  strip_octets l = l.
Proof.
  intros Hh Hl. unfold strip_octets. rewrite (lstrip_octets_id l Hh).
  rewrite lstrip_octets_id; [apply rev_involutive|].
  intros c Hc. apply Hl. by rewrite <- head_reverse, <- rev_reverse.
Qed.

Lemma strip_octets_idemp (l : list ascii) :
  strip_octets (strip_octets l) = strip_octets l.
Proof.
  apply strip_octets_id; [apply strip_octets_head|apply strip_octets_last].
Qed.

Lemma strip_idemp (s : bytes) : strip (strip s) = strip s.
Proof.
  unfold strip at 1. rewrite octets_strip.
  fold (strip_octets (strip_octets (octets s))).
  rewrite strip_octets_idemp. unfold strip, strip_octets. reflexivity.
Qed.

Lemma strip_no_edge_whitespace (s : bytes) : ~ edge_whitespace (strip s).
Proof.
  intros (c & Hc & Hw). rewrite octets_strip in Hc.
  assert (Hs : isspace c = false)
    by (destruct Hc; [by eapply strip_octets_head|by eapply strip_octets_last]).
  unfold isspace in Hs. by apply bool_decide_eq_false in Hs.
Qed.

Lemma strip_no_upper (s : bytes) :
  UPPER_RE_search s = false -> UPPER_RE_search (strip s) = false.
Proof.
  rewrite !UPPER_RE_search_false, octets_strip. apply strip_octets_Forall.
Qed.

(** ** What normalization emits *)

Lemma normalize_one_Some (h o : header) :
  normalize_one h = Some o ->
  name o = strip (lower (name h)) /\ value o = strip (value h) /\
  (name o ∉ CONNECTION_HEADERS) /\
  cls o = (if forced_never_indexed (name o) (value o)
           then NeverIndexedHeaderTuple else cls h).
Proof.
  unfold normalize_one. cbn zeta. case_bool_decide as Hc; [done|].
  destruct (forced_never_indexed _ _) eqn:Hf; intros [= <-];
    cbn [name value cls]; by rewrite Hf.
Qed.

Lemma normalized_name_fixed (n : bytes) :
  strip (lower (strip (lower n))) = strip (lower n).
Proof.
  rewrite (lower_id (strip (lower n))); [apply strip_idemp|].
  apply strip_no_upper, lower_no_upper.
Qed.

(** A header that normalization emitted goes through it unchanged. *)
Lemma normalize_one_fixed (h o : header) :
  normalize_one h = Some o -> normalize_one o = Some o.
Proof.
  intros (Hn & Hv & Hc & Hcls)%normalize_one_Some.
  unfold normalize_one. cbn zeta.
  rewrite Hn, normalized_name_fixed, <- Hn, Hv, strip_idemp, <- Hv.
  rewrite bool_decide_false by done.
  destruct o as [c n v]. cbn [name value cls] in *.
  destruct (forced_never_indexed n v); by subst c.
Qed.

Lemma omap_normalize_one_fixed (B : list header) :
  omap normalize_one (omap normalize_one B) = omap normalize_one B.
Proof.
  induction B as [|h B IH]; [reflexivity|]. cbn [omap list_omap].
  destruct (normalize_one h) as [o|] eqn:E; [|exact IH].
  cbn [omap list_omap]. by rewrite (normalize_one_fixed h o E), IH.
Qed.

Lemma omap_normalize_one_clean (B : list header) :
  Forall (fun o =>
    Forall (fun c => ~ (65 <= ord c <= 90)%N) (octets (name o)) /\
    ~ edge_whitespace (name o) /\ ~ edge_whitespace (value o) /\
    name o ∉ CONNECTION_HEADERS) (omap normalize_one B).
Proof.
  apply Forall_forall. intros o Ho.
  apply list_elem_of_omap in Ho as (h & _ & Ho).
  apply normalize_one_Some in Ho as (Hn & Hv & Hc & _).
  rewrite Hn at 1 2. rewrite Hv. split; [|split; [|split]].
  - apply UPPER_RE_search_false, strip_no_upper, lower_no_upper.
  - apply strip_no_edge_whitespace.
  - apply strip_no_edge_whitespace.
  - exact Hc.
Qed.

Lemma iter_inj (l1 l2 : list header) : iter l1 = iter l2 -> l1 = l2.
Proof.
  revert l2. induction l1 as [|a l1 IH]; intros [|b l2]; cbn; try done.
  intros [= -> H]. f_equal. by apply IH.
Qed.

(** X1. Every header outbound normalization emits has a name without an
    upper-case ASCII octet, neither its name nor its value begins or ends
    with whitespace, and its name is not a connection-specific one. *)
Theorem normalize_outbound_headers_clean
    (B : list header) (F : HeaderValidationFlags) :
  exists out : list header,
    normalize_outbound_headers (iter B) F = iter out /\
    Forall (fun o =>
      Forall (fun c => ~ (65 <= ord c <= 90)%N) (octets (name o)) /\
      ~ edge_whitespace (name o) /\ ~ edge_whitespace (value o) /\
      name o ∉ CONNECTION_HEADERS) out.
Proof.
  exists (omap normalize_one B). split; [apply normalize_outbound_headers_iter|].
  apply omap_normalize_one_clean.
Qed.

(** X2. Outbound normalization is idempotent: normalizing what it produced
    changes nothing, whatever the flags of the two calls. *)
Theorem normalize_outbound_headers_idempotent
    (B : list header) (F F' : HeaderValidationFlags) :
  normalize_outbound_headers (normalize_outbound_headers (iter B) F) F'
  = normalize_outbound_headers (iter B) F.
Proof.
  rewrite !normalize_outbound_headers_iter. by rewrite omap_normalize_one_fixed.
Qed.

(** ** The stateless checks, declaratively *)

Lemma getitem_last_octet (c : ascii) (s : bytes) :
  exists d, last (octets (String c s)) = Some d /\
            getitem (String c s) (-1) = Return (ord d).
Proof.
  unfold getitem. change (-1 <? 0)%Z with true. cbn match.
  assert (Hlen : (-1 + len (String c s))%Z = Z.of_nat (String.length s))
    by (unfold len; cbn [String.length]; lia).
  rewrite Hlen.
  destruct (Z.ltb_spec (Z.of_nat (String.length s)) 0) as [Hneg|_]; [lia|].
  rewrite Nat2Z.id, last_lookup, length_octets. cbn [String.length pred].
  destruct (octets (String c s) !! String.length s) as [d|] eqn:E; [by exists d|].
  apply lookup_ge_None in E. rewrite length_octets in E. cbn in E. lia.
Qed.

Lemma edge_whitespace_empty : ~ edge_whitespace "".
Proof. intros (c & [H|H] & _); discriminate H. Qed.

Lemma surrounded_nonempty_spec (c : ascii) (s : bytes) :
  exists b, surrounded (String c s) = Return b /\
            (b = true <-> edge_whitespace (String c s)).
Proof.
  unfold surrounded. rewrite getitem_first. cbn [mbind outcome_bind].
  destruct (getitem_last_octet c s) as (d & Hd & Hget).
  case_bool_decide as Hc.
  - exists true. split; [done|]. split; [|done]. intros _. exists c. split; [by left|done].
  - rewrite Hget. cbn [mbind outcome_bind]. eexists. split; [reflexivity|].
    rewrite bool_decide_eq_true. split.
    + intros Hw. exists d. split; [by right|done].
    + intros (x & [Hx|Hx] & Hw).
      * cbn in Hx. by injection Hx as <-.
      * rewrite Hd in Hx. by injection Hx as <-.
Qed.

(** The four stateless checks pass on exactly the headers that are
    [field_ok]. *)
Lemma field_check_Return (h : header) : field_check h = Return () <-> field_ok h.
Proof.
  unfold field_check, field_ok.
  pose proof (UPPER_RE_search_false (name h)) as Hu.
  destruct (UPPER_RE_search (name h)).
  { split; [done|]. intros (_ & Hup & _). by apply Hu in Hup. }
  assert (Hupper : Forall (fun c => ~ (65 <= ord c <= 90)%N) (octets (name h)))
    by (by apply Hu).
  clear Hu. revert Hupper. generalize (octets (name h)). intros up Hupper.
  destruct (name h) as [|c n] eqn:En.
  { rewrite surrounded_empty. split; [done|by intros (? & _)]. }
  destruct (surrounded_nonempty_spec c n) as (b & -> & Hb). cbn [mbind outcome_bind].
  destruct b.
  { split; [done|]. intros (_ & _ & Hne & _). destruct Hne. by apply Hb. }
  assert (Hname : ~ edge_whitespace (String c n))
    by (intros Hw; by apply Hb in Hw).
  assert (Hval : exists bv,
            (if truthy (value h) then surrounded (value h) else Return false)
            = Return bv /\ (bv = true <-> edge_whitespace (value h))).
  { destruct (value h) as [|d v]; cbn [truthy].
    - exists false. split; [done|]. split; [done|]. intros Hw.
      by apply edge_whitespace_empty in Hw.
    - apply surrounded_nonempty_spec. }
  destruct Hval as (bv & -> & Hbv). cbn [mbind outcome_bind].
  destruct bv.
  { split; [done|]. intros (_ & _ & _ & Hne & _). destruct Hne. by apply Hbv. }
  assert (Hvalue : ~ edge_whitespace (value h))
    by (intros Hw; by apply Hbv in Hw).
  case_bool_decide as Hte; cbn [andb].
  - case_bool_decide as Htr; cbn [negb].
    + case_bool_decide as Hc; [split; [done|by intros (_ & _ & _ & _ & _ & ?)]|].
      split; [|done]. intros _. by repeat split.
    + split; [done|]. intros (_ & _ & _ & _ & Hrule & _). by destruct Htr, Hrule.
  - case_bool_decide as Hc; [split; [done|by intros (_ & _ & _ & _ & _ & ?)]|].
    split; [|done]. intros _. by repeat split.
Qed.

(** ** The scan with other stateless checks *)

Lemma scan_with_field_check (F : HeaderValidationFlags) (B : list header) (st : scan) :
  scan_with field_check F st B = scan_from F st B.
Proof.
  revert st. induction B as [|h B IH]; intros st; [reflexivity|].
  cbn [scan_with scan_from]. change (step_with field_check st h) with (step st h).
  destruct (step st h) as [st'|e]; [|reflexivity].
  cbn [mbind outcome_bind]. by rewrite IH.
Qed.

Lemma step_with_Raise (check : header -> outcome unit) (st : scan) (h : header)
    (e : exn) :
  step_with check st h = Raise e -> check h = Raise e \/ e = ProtocolError.
Proof.
  unfold step_with. destruct (check h) as [[]|e']; cbn [mbind outcome_bind].
  - destruct (pseudo_step _ _ h) as [sr|e'] eqn:Hp; cbn [mbind outcome_bind];
      [discriminate|].
    intros [= <-]. right. by eapply pseudo_step_Raise.
  - intros [= <-]. by left.
Qed.

Lemma step_with_Return (check : header -> outcome unit) (st st' : scan) (h : header) :
  step_with check st h = Return st' <->
  check h = Return () /\ step_with (fun _ => Return ()) st h = Return st'.
Proof.
  unfold step_with. destruct (check h) as [[]|e]; cbn [mbind outcome_bind].
  - split; [by intros ->|by intros [_ ->]].
  - split; [done|by intros [? _]].
Qed.

(** With checks that raise nothing but [ProtocolError], the scan returns the
    block or raises a [ProtocolError]. *)
Lemma scan_with_outcome (check : header -> outcome unit)
    (F : HeaderValidationFlags) (B : list header) (st : scan) :
  (forall h e, check h = Raise e -> e = ProtocolError) ->
  scan_with check F st B = Return B \/
  scan_with check F st B = Raise ProtocolError.
Proof.
  intros Hcheck. revert st. induction B as [|h B IH]; intros st; cbn [scan_with].
  - destruct (finish F st) as [[]|e] eqn:Hf; cbn [mbind outcome_bind]; [by left|].
    apply finish_Raise in Hf as ->. by right.
  - destruct (step_with check st h) as [st'|e] eqn:Hs; cbn [mbind outcome_bind].
    + destruct (IH st') as [-> | ->]; cbn [mbind outcome_bind]; [by left|by right].
    + right. apply step_with_Raise in Hs as [Hs | ->]; [|done].
      by rewrite (Hcheck h e Hs).
Qed.

(** Weaker checks accept what stronger checks accept. *)
Lemma scan_with_weaken (c1 c2 : header -> outcome unit)
    (F : HeaderValidationFlags) (B L : list header) (st : scan) :
  (forall h, c1 h = Return () -> c2 h = Return ()) ->
  scan_with c1 F st B = Return L -> scan_with c2 F st B = Return L.
Proof.
  intros Hc. revert st L. induction B as [|h B IH]; intros st L; cbn [scan_with];
    [done|].
  destruct (step_with c1 st h) as [st'|e] eqn:Hs; cbn [mbind outcome_bind]; [|done].
  apply step_with_Return in Hs as [H1 Hs]. apply Hc in H1.
  rewrite (proj2 (step_with_Return c2 st st' h) (conj H1 Hs)).
  cbn [mbind outcome_bind].
  destruct (scan_with c1 F st' B) as [L'|e] eqn:E; cbn [mbind outcome_bind]; [|done].
  by rewrite (IH st' L' E).
Qed.

(** Checks that agree on the headers of the block give the same scan. *)
Lemma scan_with_agree (c1 c2 : header -> outcome unit)
    (F : HeaderValidationFlags) (B : list header) (st : scan) :
  Forall (fun h => c1 h = c2 h) B ->
  scan_with c1 F st B = scan_with c2 F st B.
Proof.
  intros H. revert st. induction H as [|h B Hh _ IH]; intros st; [reflexivity|].
  cbn [scan_with]. unfold step_with. rewrite Hh.
  destruct (c2 h) as [[]|e]; cbn [mbind outcome_bind]; [|reflexivity].
  destruct (pseudo_step _ _ h) as [sr|e]; cbn [mbind outcome_bind]; [|reflexivity].
  by rewrite IH.
Qed.

(** ** The two stateful generators on top of any stateless stack *)

Lemma stateful_from_Throw (F : HeaderValidationFlags) (st : scan) (e : exn) :
  stateful_from F st (Throw e) = Throw e.
Proof. unfold stateful_from. by destruct (host_authority st). Qed.

Lemma stateful_from_Stop (F : HeaderValidationFlags) (st : scan) :
  list_ (stateful_from F st Stop) = (_ ← finish F st; Return []).
Proof. exact (pipeline_from_Stop F st). Qed.

Lemma stateful_from_Yield (F : HeaderValidationFlags) (st : scan)
    (h : header) (g : gen header) :
  stateful_from F st (Yield h g) =
  match step_with (fun _ => Return ()) st h with
  | Return st' => Yield h (stateful_from F st' g)
  | Raise e => Throw e
  end.
Proof.
  unfold stateful_from at 1, step_with. cbn [mbind outcome_bind].
  unfold pseudo_step, is_pseudo, _custom_startswith.
  cbn [_reject_pseudo_header_fields_from]. unfold _custom_startswith.
  destruct (startswith (name h) ":").
  - destruct (bool_decide (name h ∈ seen_pseudo st)).
    { cbn. by destruct (host_authority st). }
    destruct (seen_regular st).
    { cbn. by destruct (host_authority st). }
    destruct (negb _).
    { cbn. by destruct (host_authority st). }
    cbn [mbind outcome_bind fst snd]. unfold stateful_from.
    cbn [seen_pseudo seen_regular host_authority].
    destruct (host_authority st) as [[a b]|]; [|reflexivity].
    cbn [fmap option_fmap option_map _validate_host_authority_header_from fst snd].
    unfold host_step. cbn [fst snd].
    repeat case_bool_decide; reflexivity.
  - cbn [mbind outcome_bind fst snd]. unfold stateful_from.
    cbn [seen_pseudo seen_regular host_authority].
    destruct (host_authority st) as [[a b]|]; [|reflexivity].
    cbn [fmap option_fmap option_map _validate_host_authority_header_from fst snd].
    unfold host_step. cbn [fst snd].
    repeat case_bool_decide; reflexivity.
Qed.

(** A stack of stateless generators that lets a header through when [check]
    passes, under the two stateful ones, computes the scan with [check]. *)
Lemma stack_scan (pre : gen header -> gen header) (check : header -> outcome unit)
    (F : HeaderValidationFlags) (B : list header) (st : scan) :
  (forall h g, pre (Yield h g) =
     match check h with
     | Return _ => Yield h (pre g)
     | Raise e => Throw e
     end) ->
  pre Stop = Stop ->
  list_ (stateful_from F st (pre (iter B))) = scan_with check F st B.
Proof.
  intros HY HS. revert st. induction B as [|h B IH]; intros st;
    cbn [iter scan_with].
  - rewrite HS. apply stateful_from_Stop.
  - rewrite HY. unfold step_with at 1.
    destruct (check h) as [[]|e]; cbn [mbind outcome_bind].
    + rewrite stateful_from_Yield. unfold step_with. cbn [mbind outcome_bind].
      destruct (pseudo_step _ _ h) as [sr|e]; cbn [mbind outcome_bind list_];
        [|reflexivity].
      by rewrite IH.
    + by rewrite stateful_from_Throw.
Qed.

Lemma sent_stack_Yield (h : header) (g : gen header) (F : HeaderValidationFlags) :
  _reject_connection_header (_reject_te (Yield h g) F) F =
  match sent_check h with
  | Return _ => Yield h (_reject_connection_header (_reject_te g F) F)
  | Raise e => Throw e
  end.
Proof.
  unfold _reject_connection_header, _reject_te, sent_check. cbn [for_each].
  destruct (bool_decide (name h = "te") && _); cbn [for_each]; [reflexivity|].
  destruct (bool_decide (name h ∈ CONNECTION_HEADERS)); reflexivity.
Qed.

(** Outbound validation is the scan with the two checks it keeps. *)
Lemma validate_outbound_headers_scan (B : list header) (F : HeaderValidationFlags) :
  list_ (validate_outbound_headers (iter B) F)
  = scan_with sent_check F (scan_init F) B.
Proof.
  rewrite <- (stack_scan (fun g => _reject_connection_header (_reject_te g F) F)
                sent_check F B (scan_init F));
    [|intros h g; apply sent_stack_Yield|reflexivity].
  unfold validate_outbound_headers, stateful_from, scan_init,
    _check_sent_host_authority_header, _reject_pseudo_header_fields,
    _validate_host_authority_header.
  cbn [seen_pseudo seen_regular host_authority].
  by destruct (is_response_header F || is_trailer F).
Qed.

Lemma sent_check_Raise (h : header) (e : exn) :
  sent_check h = Raise e -> e = ProtocolError.
Proof.
  unfold sent_check.
  repeat match goal with
         | |- context [if ?b then _ else _] => destruct b
         end; by intros [= <-].
Qed.

Lemma field_check_sent_check (h : header) :
  field_check h = Return () -> sent_check h = Return ().
Proof.
  unfold field_check, sent_check.
  destruct (UPPER_RE_search (name h)); [done|].
  destruct (surrounded (name h)) as [[]|e]; cbn [mbind outcome_bind]; try done.
  destruct (if truthy (value h) then surrounded (value h) else Return false)
    as [[]|e]; cbn [mbind outcome_bind]; done.
Qed.

(** X3. Outbound validation hands back the block it was given or raises a
    [ProtocolError]; unlike inbound validation it raises nothing else, an
    empty name included. *)
Theorem validate_outbound_headers_returns_or_ProtocolError
    (B : list header) (F : HeaderValidationFlags) :
  list_ (validate_outbound_headers (iter B) F) = Return B \/
  list_ (validate_outbound_headers (iter B) F) = Raise ProtocolError.
Proof.
  rewrite validate_outbound_headers_scan.
  apply scan_with_outcome, sent_check_Raise.
Qed.

(** X4. A block that inbound validation returns is returned by outbound
    validation too, under the same flags. *)
Theorem validate_headers_accepts_then_outbound
    (B L : list header) (F : HeaderValidationFlags) :
  validate_headers B F = Return L ->
  list_ (validate_outbound_headers (iter B) F) = Return L.
Proof.
  rewrite validate_headers_scan, validate_outbound_headers_scan,
    <- scan_with_field_check.
  apply scan_with_weaken, field_check_sent_check.
Qed.

(** A minimal request passes both. *)
Lemma validate_headers_accepts_then_outbound_witness :
  list_ (validate_outbound_headers
           (iter [Header PlainTuple ":method" "GET"; Header PlainTuple "host" "a"])
           (Flags true false false false))
  = Return [Header PlainTuple ":method" "GET"; Header PlainTuple "host" "a"].
Proof.
  apply validate_headers_accepts_then_outbound. vm_compute. reflexivity.
Defined.

(** ** Exactly which blocks inbound validation returns *)

Lemma accepted_field_check (F : HeaderValidationFlags) (B L : list header) (st : scan) :
  scan_from F st B = Return L -> Forall field_ok B.
Proof.
  revert st L. induction B as [|h B IH]; intros st L Hacc; [constructor|].
  apply scan_from_Return_cons in Hacc as (st' & L' & Hs & Hacc).
  constructor; [|by eapply IH].
  apply field_check_Return. unfold step in Hs.
  by destruct (field_check h) as [[]|e].
Qed.

Lemma step_accepts (st : scan) (h : header) :
  field_ok h ->
  (is_pseudo h = true ->
     (name h ∉ seen_pseudo st) /\ seen_regular st = false /\
     name h ∈ _ALLOWED_PSEUDO_HEADER_FIELDS) ->
  step st h =
  Return (Scan (if is_pseudo h then {[ name h ]} ∪ seen_pseudo st
                else seen_pseudo st)
               (if is_pseudo h then false else true)
               ((fun ah => host_step ah h) <$> host_authority st)).
Proof.
  intros Hok%field_check_Return Hp. unfold step. rewrite Hok.
  cbn [mbind outcome_bind]. unfold pseudo_step.
  destruct (is_pseudo h); [|reflexivity].
  destruct (Hp eq_refl) as (Hseen & Hreg & Hall).
  rewrite bool_decide_false, Hreg, bool_decide_true by done.
  reflexivity.
Qed.

Lemma scan_from_complete (F : HeaderValidationFlags) (B : list header) (st : scan) :
  Forall field_ok B ->
  (forall x, x ∈ B -> is_pseudo x = true ->
     (name x ∉ seen_pseudo st) /\ seen_regular st = false /\
     name x ∈ _ALLOWED_PSEUDO_HEADER_FIELDS) ->
  (forall i j x y, i < j -> B !! i = Some x -> B !! j = Some y ->
     is_pseudo x = true -> name y <> name x) ->
  (forall i j x y, i < j -> B !! i = Some x -> B !! j = Some y ->
     is_pseudo x = false -> is_pseudo y = false) ->
  (is_trailer F = true ->
     seen_pseudo st = ∅ /\ forall x, x ∈ B -> is_pseudo x = false) ->
  (is_response_header F = true ->
     ":status" ∈ seen_pseudo st \/ exists x, x ∈ B /\ name x = ":status") ->
  (forall ah, host_authority st = Some ah ->
     host_finish (foldl host_step ah B) = Return ()) ->
  scan_from F st B = Return B.
Proof.
  intros Hok. revert st.
  induction Hok as [|h B Hh _ IH]; intros st Hps Hdup Hreg Htr Hresp Hhost;
    cbn [scan_from].
  - assert (Hfin : finish F st = Return ()); [|by rewrite Hfin].
    unfold finish. destruct (is_trailer F) eqn:Et; cbn [andb].
    + destruct (Htr eq_refl) as [Hempty _]. rewrite Hempty.
      rewrite bool_decide_false by (intros Hne; by apply Hne).
      destruct (is_response_header F) eqn:Er; cbn [andb].
      * destruct (Hresp eq_refl) as [Hin | (x & Hx & _)];
          [|by apply elem_of_nil in Hx].
        rewrite Hempty in Hin. by apply not_elem_of_empty in Hin.
      * destruct (host_authority st) as [ah|]; [by apply Hhost|done].
    + destruct (is_response_header F) eqn:Er; cbn [andb].
      * destruct (Hresp eq_refl) as [Hin | (x & Hx & _)];
          [|by apply elem_of_nil in Hx].
        rewrite bool_decide_true by done. cbn [negb].
        destruct (host_authority st) as [ah|]; [by apply Hhost|done].
      * destruct (host_authority st) as [ah|]; [by apply Hhost|done].
  - rewrite (step_accepts st h Hh)
      by (intros Hp; apply (Hps h); [apply list_elem_of_here|done]).
    cbn [mbind outcome_bind].
    rewrite IH; [reflexivity|..]; cbn [seen_pseudo seen_regular host_authority].
    + intros x Hx Hp.
      destruct (Hps x (list_elem_of_further _ _ _ Hx) Hp) as (Hseen & Hr & Hall).
      apply list_elem_of_lookup in Hx as [j Hj].
      destruct (is_pseudo h) eqn:Eh.
      * split; [|done]. intros Hin.
        apply elem_of_union in Hin as [Hin%elem_of_singleton | Hin]; [|done].
        by apply (Hdup 0 (S j) h x); [lia|..].
      * pose proof (Hreg 0 (S j) h x) as Hc. rewrite Hc in Hp; [done|lia|done..].
    + intros i j x y Hij Hi Hj. by apply (Hdup (S i) (S j)); [lia|..].
    + intros i j x y Hij Hi Hj. by apply (Hreg (S i) (S j)); [lia|..].
    + intros Et. destruct (Htr Et) as [Hempty Hall].
      rewrite (Hall h (list_elem_of_here _ _)).
      split; [done|]. intros x Hx. by apply Hall, list_elem_of_further.
    + intros Er. destruct (Hresp Er) as [Hin | (x & Hx & Hn)].
      * left. destruct (is_pseudo h); [|done]. apply elem_of_union. by right.
      * apply elem_of_cons in Hx as [-> | Hx]; [|right; by exists x].
        left. unfold is_pseudo. rewrite Hn. cbn.
        apply elem_of_union. left. by apply elem_of_singleton.
    + intros ah Hah.
      destruct (host_authority st) as [ah0|] eqn:E0; [|done].
      cbn in Hah. injection Hah as <-. by apply (Hhost ah0).
Qed.

Lemma host_finish_agree (B : list header) :
  host_finish (foldl host_step (None, None) B) = Return () <->
  host_authority_agree B.
Proof.
  rewrite foldl_host_step. unfold host_authority_agree, host_finish.
  cbn [fst snd from_option].
  destruct (last_value ":authority" B) as [a|], (last_value "host" B) as [b|];
    cbn [from_option].
  - rewrite !bool_decide_true by done. cbn [negb andb].
    case_bool_decide as Hab.
    + split; [done|]. intros ->. by destruct Hab.
    + split; [|done]. intros _. congruence.
  - rewrite bool_decide_true, bool_decide_false by (try done; by intros []).
    done.
  - rewrite bool_decide_false, bool_decide_true by (try done; by intros []).
    done.
  - rewrite bool_decide_false by (by intros []). done.
Qed.

(** X5. Inbound validation returns a block exactly when every header passes
    the four stateless checks (non-empty lower-case name, no whitespace at
    either end of name or value, "te" only with "trailers", no
    connection-specific name), the pseudo-header discipline holds, and,
    unless the block is a response or a trailer, ":authority" or "host" is
    there and their last values agree. *)
Theorem validate_headers_Return_iff (B : list header) (F : HeaderValidationFlags) :
  validate_headers B F = Return B <-> valid_block F B.
Proof.
  rewrite validate_headers_scan. unfold valid_block. split.
  - intros Hacc. split; [by eapply accepted_field_check|]. split.
    + intros Hv. by apply (pseudo_violation_not_accepted F B B) in Hv.
    + intros Hskip. apply host_finish_agree.
      eapply accepted_host_finish; [exact Hacc|].
      unfold scan_init. cbn [host_authority]. by rewrite Hskip.
  - intros (Hok & Hnv & Hagree). apply scan_from_complete; try done;
      unfold scan_init; cbn [seen_pseudo seen_regular host_authority].
    + intros x Hx Hp. split; [apply not_elem_of_empty|]. split; [done|].
      apply dec_stable. intros Hna. apply Hnv. by eapply not_allowed.
    + intros i j x y Hij Hi Hj Hp Hn. apply Hnv. by eapply duplicated.
    + intros i j x y Hij Hi Hj Hx. destruct (is_pseudo y) eqn:Hy; [|done].
      destruct Hnv. by eapply after_regular.
    + intros Et. split; [done|]. intros x Hx.
      destruct (is_pseudo x) eqn:Hp; [|done].
      destruct Hnv. by eapply pseudo_in_trailer.
    + intros Er. right.
      destruct (decide (Exists (fun x => name x = ":status") B)) as [He|He].
      * apply Exists_exists in He as (x & Hx & Hn). by exists x.
      * destruct Hnv. apply response_without_status; [done|].
        intros x Hx Hn. apply He, Exists_exists. by exists x.
    + intros ah Hah. destruct (is_response_header F || is_trailer F) eqn:Es;
        [done|]. injection Hah as <-. by apply host_finish_agree, Hagree.
Qed.

(** A block the pass lets through. *)
Lemma validate_headers_Return_iff_witness :
  valid_block (Flags true false false false)
    [Header PlainTuple ":method" "GET"; Header PlainTuple ":authority" "x";
     Header PlainTuple "te" "Trailers"; Header PlainTuple "host" "x"].
Proof.
  apply validate_headers_Return_iff. vm_compute. reflexivity.
Defined.

(** ** Normalization followed by validation *)

Lemma sent_check_Return (h : header) :
  sent_check h = Return () ->
  (name h = "te" -> lower (value h) = "trailers") /\
  name h ∉ CONNECTION_HEADERS.
Proof.
  unfold sent_check. case_bool_decide as Hte; cbn [andb].
  - case_bool_decide as Htr; cbn [negb]; [|done].
    case_bool_decide as Hc; [done|]. by intros _.
  - case_bool_decide as Hc; [done|]. by intros _.
Qed.

(** On a header with a non-empty lower-case name and no whitespace at the
    ends of name and value, the inbound checks do what the outbound checks
    do. *)
Lemma field_check_clean (h : header) :
  name h <> "" ->
  Forall (fun c => ~ (65 <= ord c <= 90)%N) (octets (name h)) ->
  ~ edge_whitespace (name h) -> ~ edge_whitespace (value h) ->
  field_check h = sent_check h.
Proof.
  intros Hne Hup Hn Hv.
  destruct (field_check h) as [[]|e] eqn:Ef.
  - symmetry. by apply field_check_sent_check.
  - apply field_check_Raise in Ef as Hk. destruct Hk as [-> | [_ He]]; [|done].
    destruct (sent_check h) as [[]|e'] eqn:Es.
    + apply sent_check_Return in Es as [Hte Hc].
      assert (Hok : field_check h = Return ())
        by (apply field_check_Return; by repeat split).
      congruence.
    + by apply sent_check_Raise in Es as ->.
Qed.

(** X6. On what outbound normalization emits, inbound and outbound
    validation do the same, provided no emitted name is empty: the upper-case
    and whitespace checks that outbound validation leaves out cannot fail
    there. *)
Theorem normalized_validation_agrees
    (B out : list header) (F F' : HeaderValidationFlags) :
  normalize_outbound_headers (iter B) F' = iter out ->
  Forall (fun o => name o <> "") out ->
  validate_headers out F = list_ (validate_outbound_headers (iter out) F).
Proof.
  intros Hout Hne.
  rewrite normalize_outbound_headers_iter in Hout. apply iter_inj in Hout as <-.
  pose proof (omap_normalize_one_clean B) as Hclean.
  rewrite validate_headers_scan, validate_outbound_headers_scan,
    <- scan_with_field_check.
  apply scan_with_agree.
  apply Forall_forall. intros o Ho.
  rewrite Forall_forall in Hclean, Hne.
  destruct (Hclean o Ho) as (Hup & Hn & Hv & _).
  by apply field_check_clean; [apply Hne|..].
Qed.

(** An upper-case, padded request. *)
Lemma normalized_validation_agrees_witness :
  validate_headers
    [Header PlainTuple ":method" "GET"; Header PlainTuple "host" "a"]
    (Flags true false false false)
  = list_ (validate_outbound_headers
             (iter [Header PlainTuple ":method" "GET"; Header PlainTuple "host" "a"])
             (Flags true false false false)).
Proof.
  apply (normalized_validation_agrees
           [Header PlainTuple " :METHOD" "GET "; Header PlainTuple "Connection" "x";
            Header PlainTuple "Host " " a"]
           _ _ (Flags true false false false)).
  - vm_compute. reflexivity.
  - repeat constructor; discriminate.
Defined.

(** ** The extractors on validated blocks *)

Lemma accepted_status_scan (F : HeaderValidationFlags) (B L : list header) (st : scan) :
  scan_from F st B = Return L ->
  (exists x, x ∈ B /\ name x = ":status") ->
  exists s, s ∈ B /\ name s = ":status" /\
            is_informational_response B = RBool (startswith (value s) "1").
Proof.
  revert st L. induction B as [|h B IH]; intros st L Hacc (x & Hx & Hn).
  - by apply elem_of_nil in Hx.
  - cbn [is_informational_response].
    destruct (startswith (name h) ":") eqn:Hp; cbn [negb].
    + case_bool_decide as Hs.
      * apply elem_of_cons in Hx as [-> | Hx]; [done|].
        apply scan_from_Return_cons in Hacc as (st' & L' & _ & Hacc).
        destruct (IH st' L' Hacc) as (s & Hs' & Hsn & Hr); [by exists x|].
        exists s. split; [by apply list_elem_of_further|done].
      * exists h. split; [apply list_elem_of_here|done].
    + exfalso. apply elem_of_cons in Hx as [-> | Hx].
      * by rewrite Hn in Hp.
      * apply list_elem_of_lookup in Hx as [j Hj].
        apply (accepted_no_pseudo_after_regular F (h :: B) L st 0 (S j) h x);
          try done; [lia|].
        unfold is_pseudo. by rewrite Hn.
Qed.

(** X7. On a block that inbound validation returned under
    [is_response_header], [is_informational_response] gives a boolean, never
    [None]: the block has one ":status" header, at one position only, and the
    answer is whether its value begins with "1". *)
Theorem is_informational_response_validated
    (B L : list header) (F : HeaderValidationFlags) :
  validate_headers B F = Return L ->
  is_response_header F = true ->
  exists (i : nat) (s : header),
    B !! i = Some s /\ name s = ":status" /\
    (forall j s', B !! j = Some s' -> name s' = ":status" -> j = i) /\
    is_informational_response B = RBool (startswith (value s) "1").
Proof.
  rewrite validate_headers_scan. intros Hacc Hr.
  destruct (accepted_response F B L _ Hacc Hr) as [Hin | Hex].
  { unfold scan_init in Hin. cbn in Hin. by apply not_elem_of_empty in Hin. }
  destruct (accepted_status_scan F B L _ Hacc Hex) as (s & Hs & Hn & Hres).
  apply list_elem_of_lookup in Hs as [i Hi].
  exists i, s. repeat split; try done.
  intros j s' Hj Hn'.
  destruct (Nat.lt_trichotomy i j) as [Hlt | [<- | Hlt]]; [|done|].
  - exfalso.
    apply (accepted_no_duplicate F B L _ i j s s' Hacc Hlt Hi Hj);
      [unfold is_pseudo; by rewrite Hn|congruence].
  - exfalso.
    apply (accepted_no_duplicate F B L _ j i s' s Hacc Hlt Hj Hi);
      [unfold is_pseudo; by rewrite Hn'|congruence].
Qed.

(** A validated 103 response. *)
Lemma is_informational_response_validated_witness :
  exists (i : nat) (s : header),
    [Header PlainTuple ":status" "103"; Header PlainTuple "link" "x"] !! i = Some s /\
    name s = ":status" /\
    (forall j s',
       [Header PlainTuple ":status" "103"; Header PlainTuple "link" "x"] !! j
         = Some s' -> name s' = ":status" -> j = i) /\
    is_informational_response
      [Header PlainTuple ":status" "103"; Header PlainTuple "link" "x"]
    = RBool (startswith (value s) "1").
Proof.
  apply (is_informational_response_validated
           [Header PlainTuple ":status" "103"; Header PlainTuple "link" "x"]
           [Header PlainTuple ":status" "103"; Header PlainTuple "link" "x"]
           (Flags true false true false)).
  - vm_compute. reflexivity.
  - reflexivity.
Defined.

Lemma last_value_absent (n : bytes) (B : list header) :
  (forall y, y ∈ B -> name y <> n) -> last_value n B = None.
Proof.
  intros H. unfold last_value.
  replace (filter (fun h => name h = n) B) with (@nil header); [done|].
  symmetry. induction B as [|h B IH]; [done|].
  rewrite filter_cons, decide_False by (apply H, list_elem_of_here).
  apply IH. intros y Hy. by apply H, list_elem_of_further.
Qed.

Lemma last_value_cons_ne (n : bytes) (h : header) (B : list header) :
  name h <> n -> last_value n (h :: B) = last_value n B.
Proof. intros Hne. unfold last_value. by rewrite filter_cons, decide_False. Qed.

Lemma last_value_cons_only (n : bytes) (h : header) (B : list header) :
  name h = n -> (forall y, y ∈ B -> name y <> n) ->
  last_value n (h :: B) = Some (value h).
Proof.
  intros Hn H. unfold last_value. rewrite filter_cons, decide_True by done.
  replace (filter (fun h => name h = n) B) with (@nil header); [done|].
  symmetry. clear Hn. induction B as [|x B IH]; [done|].
  rewrite filter_cons, decide_False by (apply H, list_elem_of_here).
  apply IH. intros y Hy. by apply H, list_elem_of_further.
Qed.

Lemma extract_method_header_unique (B : list header) :
  (forall i j x y, i < j -> B !! i = Some x -> B !! j = Some y ->
     name x = ":method" -> name y <> ":method") ->
  extract_method_header B = last_value ":method" B.
Proof.
  induction B as [|h B IH]; intros Hu; [reflexivity|].
  cbn [extract_method_header]. case_bool_decide as Hn.
  - symmetry. apply last_value_cons_only; [done|].
    intros y [j Hj]%list_elem_of_lookup. by apply (Hu 0 (S j) h y); [lia|..].
  - rewrite last_value_cons_ne by done. apply IH.
    intros i j x y Hij Hi Hj. by apply (Hu (S i) (S j)); [lia|..].
Qed.

Lemma authority_from_headers_unique (B : list header) :
  (forall i j x y, i < j -> B !! i = Some x -> B !! j = Some y ->
     name x = ":authority" -> name y <> ":authority") ->
  authority_from_headers B = last_value ":authority" B.
Proof.
  induction B as [|h B IH]; intros Hu; [reflexivity|].
  cbn [authority_from_headers]. case_bool_decide as Hn.
  - symmetry. apply last_value_cons_only; [done|].
    intros y [j Hj]%list_elem_of_lookup. by apply (Hu 0 (S j) h y); [lia|..].
  - rewrite last_value_cons_ne by done. apply IH.
    intros i j x y Hij Hi Hj. by apply (Hu (S i) (S j)); [lia|..].
Qed.

(** X8. On a block that inbound validation returned, the two extractors,
    which stop at the first match, give the value of the only ":method" and
    of the only ":authority" header (or [None]); and for a request block the
    authority found is the value the last "host" header has, when there is
    one. *)
Theorem extractors_validated (B L : list header) (F : HeaderValidationFlags) :
  validate_headers B F = Return L ->
  extract_method_header B = last_value ":method" B /\
  authority_from_headers B = last_value ":authority" B /\
  (is_response_header F || is_trailer F = false ->
   forall a h, authority_from_headers B = Some a ->
               last_value "host" B = Some h -> a = h).
Proof.
  intros Hacc.
  rewrite validate_headers_scan in Hacc.
  assert (Hm : extract_method_header B = last_value ":method" B).
  { apply extract_method_header_unique. intros i j x y Hij Hi Hj Hx Hy.
    apply (accepted_no_duplicate F B L _ i j x y Hacc Hij Hi Hj);
      [unfold is_pseudo; by rewrite Hx|congruence]. }
  assert (Ha : authority_from_headers B = last_value ":authority" B).
  { apply authority_from_headers_unique. intros i j x y Hij Hi Hj Hx Hy.
    apply (accepted_no_duplicate F B L _ i j x y Hacc Hij Hi Hj);
      [unfold is_pseudo; by rewrite Hx|congruence]. }
  split; [done|]. split; [done|].
  intros Hskip a h Hauth Hhost.
  assert (Hagree : host_authority_agree B).
  { apply host_finish_agree. eapply accepted_host_finish; [exact Hacc|].
    unfold scan_init. cbn [host_authority]. by rewrite Hskip. }
  unfold host_authority_agree in Hagree.
  rewrite Ha in Hauth. by rewrite Hauth, Hhost in Hagree.
Qed.

(** A validated request with both ":authority" and "host". *)
Lemma extractors_validated_witness :
  extract_method_header
    [Header PlainTuple ":method" "GET"; Header PlainTuple ":authority" "x";
     Header PlainTuple "host" "x"]
  = last_value ":method"
      [Header PlainTuple ":method" "GET"; Header PlainTuple ":authority" "x";
       Header PlainTuple "host" "x"].
Proof.
  apply (proj1 (extractors_validated
           [Header PlainTuple ":method" "GET"; Header PlainTuple ":authority" "x";
            Header PlainTuple "host" "x"]
           [Header PlainTuple ":method" "GET"; Header PlainTuple ":authority" "x";
            Header PlainTuple "host" "x"]
           (Flags true false false false) ltac:(vm_compute; reflexivity))).
Defined.

(** ** The flags that matter *)

Lemma scan_with_flags (check : header -> outcome unit)
    (F F' : HeaderValidationFlags) (B : list header) (st : scan) :
  is_trailer F = is_trailer F' ->
  is_response_header F = is_response_header F' ->
  scan_with check F st B = scan_with check F' st B.
Proof.
  intros Ht Hr. revert st. induction B as [|h B IH]; intros st; cbn [scan_with].
  - unfold finish. by rewrite Ht, Hr.
  - destruct (step_with check st h) as [st'|e]; cbn [mbind outcome_bind];
      [|reflexivity].
    by rewrite IH.
Qed.

(** X9. Neither validation looks at [is_client] or [is_push_promise]: two
    flag values that agree on [is_trailer] and [is_response_header] give the
    same result on every block. *)
Theorem validation_ignores_client_and_push
    (B : list header) (F F' : HeaderValidationFlags) :
  is_trailer F = is_trailer F' ->
  is_response_header F = is_response_header F' ->
  validate_headers B F = validate_headers B F' /\
  list_ (validate_outbound_headers (iter B) F)
  = list_ (validate_outbound_headers (iter B) F').
Proof.
  intros Ht Hr.
  rewrite !validate_headers_scan, !validate_outbound_headers_scan,
    <- !scan_with_field_check.
  assert (Hinit : scan_init F = scan_init F')
    by (unfold scan_init; by rewrite Ht, Hr).
  rewrite Hinit. split; by apply scan_with_flags.
Qed.

(** A pushed request validates like a client request. *)
Lemma validation_ignores_client_and_push_witness :
  validate_headers [Header PlainTuple ":method" "GET"] (Flags true false false false)
  = validate_headers [Header PlainTuple ":method" "GET"] (Flags false false false true).
Proof.
  apply (proj1 (validation_ignores_client_and_push
                  [Header PlainTuple ":method" "GET"]
                  (Flags true false false false) (Flags false false false true)
                  eq_refl eq_refl)).
Defined.

(** ** Flow control *)

(** X10. Two increments in a row, the second not negative, do what one
    increment by their sum does: the same window, or a [FlowControlError] in
    both cases. *)
Theorem guard_increment_window_chain (current i j : Z) :
  (0 <= j)%Z ->
  (n ← guard_increment_window current i; guard_increment_window n j)
  = guard_increment_window current (i + j).
Proof.
  intros Hj. unfold guard_increment_window, LARGEST_FLOW_CONTROL_WINDOW.
  change (2 ^ 31 - 1)%Z with 2147483647%Z. cbn zeta.
  destruct (Z.gtb_spec (current + i) 2147483647);
    destruct (Z.gtb_spec (current + (i + j)) 2147483647);
    cbn [mbind outcome_bind]; try lia; try reflexivity.
  - destruct (Z.gtb_spec (current + i + j) 2147483647); [reflexivity|lia].
  - destruct (Z.gtb_spec (current + i + j) 2147483647); [lia|].
    f_equal. lia.
Qed.

(** Sixty-five thousand something and then the rest of the window. *)
Lemma guard_increment_window_chain_witness :
  (n ← guard_increment_window 65535 1000; guard_increment_window n 2147417112)
  = guard_increment_window 65535 2147418112.
Proof.
  apply (guard_increment_window_chain 65535 1000 2147417112). lia.
Defined.

(** A negative second increment does not chain: the first call has already
    failed. *)
Lemma guard_increment_window_no_chain_negative :
  (n ← guard_increment_window 2147483647 1; guard_increment_window n (-1))
  <> guard_increment_window 2147483647 (1 + -1).
Proof. vm_compute. discriminate. Qed.

(** ** Exactly which blocks outbound validation returns *)

(** What the two stateless checks of outbound validation ask of a header. *)
Lemma sent_check_Return_iff (h : header) :
  sent_check h = Return () <->
  (name h = "te" -> lower (value h) = "trailers") /\
  name h ∉ CONNECTION_HEADERS.
Proof.
  split; [apply sent_check_Return|]. intros [Hte Hc]. unfold sent_check.
  rewrite (bool_decide_false (name h ∈ CONNECTION_HEADERS)) by done.
  case_bool_decide as Hn; cbn [andb]; [|done].
  by rewrite bool_decide_true by auto.
Qed.

(** The scan accepts when the stateless checks pass on every header and the
    scan that checks nothing accepts. *)
Lemma scan_with_Return_split (check : header -> outcome unit)
    (F : HeaderValidationFlags) (B L : list header) (st : scan) :
  scan_with check F st B = Return L <->
  Forall (fun h => check h = Return ()) B /\
  scan_with (fun _ => Return ()) F st B = Return L.
Proof.
  revert st L. induction B as [|h B IH]; intros st L; cbn [scan_with].
  - split; [by intros ->|by intros [_ ->]].
  - split.
    + destruct (step_with check st h) as [st'|e] eqn:Hs; cbn [mbind outcome_bind];
        [|done].
      apply step_with_Return in Hs as [Hc ->]. cbn [mbind outcome_bind].
      destruct (scan_with check F st' B) as [L'|e] eqn:E; cbn [mbind outcome_bind];
        [|done].
      apply IH in E as [Hall ->]. cbn [mbind outcome_bind].
      intros ->. split; [by constructor|done].
    + intros [Hall Hrun]. inversion Hall as [|? ? Hc Hall']; subst.
      destruct (step_with (fun _ => Return ()) st h) as [st'|e] eqn:Hs;
        cbn [mbind outcome_bind] in Hrun; [|done].
      rewrite (proj2 (step_with_Return check st st' h) (conj Hc Hs)).
      cbn [mbind outcome_bind].
      destruct (scan_with (fun _ => Return ()) F st' B) as [L'|e] eqn:E;
        cbn [mbind outcome_bind] in Hrun; [|done].
      by rewrite (proj2 (IH st' L') (conj Hall' E)).
Qed.

(** The stateful part of the scan on its own: the lemmas on accepted blocks
    again, for the scan that checks nothing. *)

Lemma stateful_Return_nil (F : HeaderValidationFlags) (st : scan) (L : list header) :
  scan_with (fun _ => Return ()) F st [] = Return L -> finish F st = Return ().
Proof. cbn [scan_with]. by destruct (finish F st) as [[]|e]. Qed.

Lemma stateful_Return_cons (F : HeaderValidationFlags) (st : scan)
    (h : header) (B L : list header) :
  scan_with (fun _ => Return ()) F st (h :: B) = Return L ->
  exists st' L', step_with (fun _ => Return ()) st h = Return st' /\
                 scan_with (fun _ => Return ()) F st' B = Return L'.
Proof.
  cbn [scan_with].
  destruct (step_with _ st h) as [st'|e]; cbn [mbind outcome_bind]; [|done].
  destruct (scan_with _ F st' B) as [L'|e] eqn:E; cbn [mbind outcome_bind]; [|done].
  intros _. by exists st', L'.
Qed.

Lemma stateful_step_Return (st st' : scan) (h : header) :
  step_with (fun _ => Return ()) st h = Return st' ->
  host_authority st' = ((fun ah => host_step ah h) <$> host_authority st) /\
  ((is_pseudo h = true /\ (name h ∉ seen_pseudo st) /\ seen_regular st = false /\
    name h ∈ _ALLOWED_PSEUDO_HEADER_FIELDS /\
    seen_pseudo st' = {[ name h ]} ∪ seen_pseudo st /\ seen_regular st' = false) \/
   (is_pseudo h = false /\
    seen_pseudo st' = seen_pseudo st /\ seen_regular st' = true)).
Proof.
  unfold step_with. cbn [mbind outcome_bind].
  unfold pseudo_step. destruct (is_pseudo h).
  - case_bool_decide as Hseen; [done|].
    destruct (seen_regular st) eqn:Hreg; [done|].
    case_bool_decide as Hallowed; cbn [negb mbind outcome_bind]; [|done].
    intros [= <-]. cbn [host_authority seen_pseudo seen_regular fst snd].
    split; [done|]. left. done.
  - cbn [mbind outcome_bind]. intros [= <-].
    cbn [host_authority seen_pseudo seen_regular fst snd].
    split; [done|]. right. done.
Qed.

Lemma stateful_step_accepts (st : scan) (h : header) :
  (is_pseudo h = true ->
     (name h ∉ seen_pseudo st) /\ seen_regular st = false /\
     name h ∈ _ALLOWED_PSEUDO_HEADER_FIELDS) ->
  step_with (fun _ => Return ()) st h =
  Return (Scan (if is_pseudo h then {[ name h ]} ∪ seen_pseudo st
                else seen_pseudo st)
               (if is_pseudo h then false else true)
               ((fun ah => host_step ah h) <$> host_authority st)).
Proof.
  intros Hp. unfold step_with. cbn [mbind outcome_bind]. unfold pseudo_step.
  destruct (is_pseudo h); [|reflexivity].
  destruct (Hp eq_refl) as (Hseen & Hreg & Hall).
  rewrite bool_decide_false, Hreg, bool_decide_true by done.
  reflexivity.
Qed.

Lemma stateful_pseudo (F : HeaderValidationFlags) (B L : list header) (st : scan)
    (y : header) :
  scan_with (fun _ => Return ()) F st B = Return L -> y ∈ B -> is_pseudo y = true ->
  (name y ∉ seen_pseudo st) /\ seen_regular st = false /\
  name y ∈ _ALLOWED_PSEUDO_HEADER_FIELDS.
Proof.
  revert st L. induction B as [|h B IH]; intros st L Hacc Hy Hp.
  - by apply elem_of_nil in Hy.
  - apply stateful_Return_cons in Hacc as (st' & L' & Hs & Hacc).
    apply stateful_step_Return in Hs as [_ Hs].
    apply elem_of_cons in Hy as [-> | Hy].
    + destruct Hs as [(_ & ? & ? & ? & _) | (Hnp & _)]; [done|congruence].
    + destruct (IH st' L' Hacc Hy Hp) as (Hseen & Hreg & Hall).
      destruct Hs as [(_ & _ & ? & _ & Hs' & _) | (_ & _ & Hr')]; [|congruence].
      rewrite Hs' in Hseen. split; [|done].
      intros Hin. apply Hseen, elem_of_union. by right.
Qed.

Lemma stateful_no_duplicate (F : HeaderValidationFlags) (B L : list header)
    (st : scan) (i j : nat) (x y : header) :
  scan_with (fun _ => Return ()) F st B = Return L ->
  i < j -> B !! i = Some x -> B !! j = Some y ->
  is_pseudo x = true -> name y = name x -> False.
Proof.
  revert st L i j. induction B as [|h B IH]; intros st L i j Hacc Hij Hi Hj Hp Hn.
  - done.
  - apply stateful_Return_cons in Hacc as (st' & L' & Hs & Hacc).
    destruct j as [|j]; [lia|]. cbn in Hj.
    destruct i as [|i]; cbn in Hi.
    + injection Hi as ->. apply stateful_step_Return in Hs as [_ Hs].
      destruct Hs as [(_ & _ & _ & _ & Hs' & _) | (Hnp & _)]; [|congruence].
      assert (Hy : y ∈ B) by (apply list_elem_of_lookup; eauto).
      assert (Hpy : is_pseudo y = true) by (unfold is_pseudo in *; by rewrite Hn).
      destruct (stateful_pseudo F B L' st' y Hacc Hy Hpy) as [Hseen _].
      rewrite Hs', Hn in Hseen. apply Hseen, elem_of_union. left.
      by apply elem_of_singleton.
    + eapply (IH st' L' i j); eauto. lia.
Qed.

Lemma stateful_no_pseudo_after_regular (F : HeaderValidationFlags)
    (B L : list header) (st : scan) (i j : nat) (x y : header) :
  scan_with (fun _ => Return ()) F st B = Return L ->
  i < j -> B !! i = Some x -> B !! j = Some y ->
  is_pseudo x = false -> is_pseudo y = true -> False.
Proof.
  revert st L i j. induction B as [|h B IH]; intros st L i j Hacc Hij Hi Hj Hx Hy.
  - done.
  - apply stateful_Return_cons in Hacc as (st' & L' & Hs & Hacc).
    destruct j as [|j]; [lia|]. cbn in Hj.
    destruct i as [|i]; cbn in Hi.
    + injection Hi as ->. apply stateful_step_Return in Hs as [_ Hs].
      destruct Hs as [(Hp & _) | (_ & _ & Hr')]; [congruence|].
      assert (HyB : y ∈ B) by (apply list_elem_of_lookup; eauto).
      destruct (stateful_pseudo F B L' st' y Hacc HyB Hy) as (_ & Hreg & _).
      congruence.
    + eapply (IH st' L' i j); eauto. lia.
Qed.

Lemma stateful_trailer (F : HeaderValidationFlags) (B L : list header) (st : scan) :
  scan_with (fun _ => Return ()) F st B = Return L -> is_trailer F = true ->
  seen_pseudo st = ∅ /\ forall y, y ∈ B -> is_pseudo y = false.
Proof.
  intros Hacc Ht. revert st L Hacc. induction B as [|h B IH]; intros st L Hacc.
  - apply stateful_Return_nil in Hacc. unfold finish in Hacc. rewrite Ht in Hacc.
    cbn [andb] in Hacc. case_bool_decide as He; [done|].
    split; [exact He|]. intros y Hy. by apply elem_of_nil in Hy.
  - apply stateful_Return_cons in Hacc as (st' & L' & Hs & Hacc).
    destruct (IH st' L' Hacc) as [Hempty Hrest].
    apply stateful_step_Return in Hs as [_ Hs].
    destruct Hs as [(_ & _ & _ & _ & Hs' & _) | (Hnp & Hs' & _)].
    + rewrite Hs' in Hempty.
      assert (Hin : name h ∈ (∅ : gset bytes)).
      { rewrite <- Hempty. apply elem_of_union. left. by apply elem_of_singleton. }
      by apply not_elem_of_empty in Hin.
    + split; [congruence|]. intros y Hy.
      apply elem_of_cons in Hy as [-> | Hy]; [done|by apply Hrest].
Qed.

Lemma stateful_response (F : HeaderValidationFlags) (B L : list header) (st : scan) :
  scan_with (fun _ => Return ()) F st B = Return L -> is_response_header F = true ->
  ":status" ∈ seen_pseudo st \/ exists x, x ∈ B /\ name x = ":status".
Proof.
  intros Hacc Hr. revert st L Hacc. induction B as [|h B IH]; intros st L Hacc.
  - apply stateful_Return_nil in Hacc. unfold finish in Hacc. rewrite Hr in Hacc.
    destruct (is_trailer F && _); [done|]. cbn [andb] in Hacc.
    case_bool_decide as Hin; [by left|done].
  - apply stateful_Return_cons in Hacc as (st' & L' & Hs & Hacc).
    apply stateful_step_Return in Hs as [_ Hs].
    destruct (IH st' L' Hacc) as [Hin | (x & Hx & Hn)].
    + destruct Hs as [(_ & _ & _ & _ & Hs' & _) | (_ & Hs' & _)].
      * rewrite Hs' in Hin. apply elem_of_union in Hin as [Hin|Hin]; [|by left].
        apply elem_of_singleton in Hin. right. exists h.
        split; [apply list_elem_of_here|done].
      * left. congruence.
    + right. exists x. split; [by apply list_elem_of_further|done].
Qed.

Lemma pseudo_violation_not_stateful (F : HeaderValidationFlags) (B L : list header) :
  pseudo_violation F B -> scan_with (fun _ => Return ()) F (scan_init F) B <> Return L.
Proof.
  intros Hv Hacc. destruct Hv as [i j x y Hij Hi Hj Hp Hn | i j x y Hij Hi Hj Hx Hy
                                 | x Hx Hp Hna | x Ht Hx Hp | Hr Hns].
  - eapply stateful_no_duplicate; eauto.
  - eapply stateful_no_pseudo_after_regular; eauto.
  - by destruct (stateful_pseudo F B L _ x Hacc Hx Hp) as (_ & _ & ?).
  - destruct (stateful_trailer F B L _ Hacc Ht) as [_ Hall].
    specialize (Hall x Hx). congruence.
  - destruct (stateful_response F B L _ Hacc Hr) as [Hin | (x & Hx & Hn)].
    + unfold scan_init in Hin. cbn [seen_pseudo] in Hin. set_solver.
    + by apply (Hns x).
Qed.

Lemma stateful_host_finish (F : HeaderValidationFlags) (B L : list header)
    (st : scan) (ah : option bytes * option bytes) :
  scan_with (fun _ => Return ()) F st B = Return L -> host_authority st = Some ah ->
  host_finish (foldl host_step ah B) = Return ().
Proof.
  revert st L ah. induction B as [|h B IH]; intros st L ah Hacc Hah.
  - apply stateful_Return_nil in Hacc. unfold finish in Hacc. rewrite Hah in Hacc.
    destruct (is_trailer F && _); [done|].
    destruct (is_response_header F && _); done.
  - apply stateful_Return_cons in Hacc as (st' & L' & Hs & Hacc).
    apply stateful_step_Return in Hs as [Hah' _]. rewrite Hah in Hah'.
    cbn [foldl]. by apply (IH st' L').
Qed.

Lemma stateful_complete (F : HeaderValidationFlags) (B : list header) (st : scan) :
  (forall x, x ∈ B -> is_pseudo x = true ->
     (name x ∉ seen_pseudo st) /\ seen_regular st = false /\
     name x ∈ _ALLOWED_PSEUDO_HEADER_FIELDS) ->
  (forall i j x y, i < j -> B !! i = Some x -> B !! j = Some y ->
     is_pseudo x = true -> name y <> name x) ->
  (forall i j x y, i < j -> B !! i = Some x -> B !! j = Some y ->
     is_pseudo x = false -> is_pseudo y = false) ->
  (is_trailer F = true ->
     seen_pseudo st = ∅ /\ forall x, x ∈ B -> is_pseudo x = false) ->
  (is_response_header F = true ->
     ":status" ∈ seen_pseudo st \/ exists x, x ∈ B /\ name x = ":status") ->
  (forall ah, host_authority st = Some ah ->
     host_finish (foldl host_step ah B) = Return ()) ->
  scan_with (fun _ => Return ()) F st B = Return B.
Proof.
  revert st.
  induction B as [|h B IH]; intros st Hps Hdup Hreg Htr Hresp Hhost;
    cbn [scan_with].
  - assert (Hfin : finish F st = Return ()); [|by rewrite Hfin].
    unfold finish. destruct (is_trailer F) eqn:Et; cbn [andb].
    + destruct (Htr eq_refl) as [Hempty _]. rewrite Hempty.
      rewrite bool_decide_false by (intros Hne; by apply Hne).
      destruct (is_response_header F) eqn:Er; cbn [andb].
      * destruct (Hresp eq_refl) as [Hin | (x & Hx & _)];
          [|by apply elem_of_nil in Hx].
        rewrite Hempty in Hin. by apply not_elem_of_empty in Hin.
      * destruct (host_authority st) as [ah|]; [by apply Hhost|done].
    + destruct (is_response_header F) eqn:Er; cbn [andb].
      * destruct (Hresp eq_refl) as [Hin | (x & Hx & _)];
          [|by apply elem_of_nil in Hx].
        rewrite bool_decide_true by done. cbn [negb].
        destruct (host_authority st) as [ah|]; [by apply Hhost|done].
      * destruct (host_authority st) as [ah|]; [by apply Hhost|done].
  - rewrite (stateful_step_accepts st h)
      by (intros Hp; apply (Hps h); [apply list_elem_of_here|done]).
    cbn [mbind outcome_bind].
    rewrite IH; [reflexivity|..]; cbn [seen_pseudo seen_regular host_authority].
    + intros x Hx Hp.
      destruct (Hps x (list_elem_of_further _ _ _ Hx) Hp) as (Hseen & Hr & Hall).
      apply list_elem_of_lookup in Hx as [j Hj].
      destruct (is_pseudo h) eqn:Eh.
      * split; [|done]. intros Hin.
        apply elem_of_union in Hin as [Hin%elem_of_singleton | Hin]; [|done].
        by apply (Hdup 0 (S j) h x); [lia|..].
      * pose proof (Hreg 0 (S j) h x) as Hc. rewrite Hc in Hp; [done|lia|done..].
    + intros i j x y Hij Hi Hj. by apply (Hdup (S i) (S j)); [lia|..].
    + intros i j x y Hij Hi Hj. by apply (Hreg (S i) (S j)); [lia|..].
    + intros Et. destruct (Htr Et) as [Hempty Hall].
      rewrite (Hall h (list_elem_of_here _ _)).
      split; [done|]. intros x Hx. by apply Hall, list_elem_of_further.
    + intros Er. destruct (Hresp Er) as [Hin | (x & Hx & Hn)].
      * left. destruct (is_pseudo h); [|done]. apply elem_of_union. by right.
      * apply elem_of_cons in Hx as [-> | Hx]; [|right; by exists x].
        left. unfold is_pseudo. rewrite Hn. cbn.
        apply elem_of_union. left. by apply elem_of_singleton.
    + intros ah Hah.
      destruct (host_authority st) as [ah0|] eqn:E0; [|done].
      cbn in Hah. injection Hah as <-. by apply (Hhost ah0).
Qed.

(** X14. Outbound validation returns a block exactly when every header
    passes its two stateless checks ("te" only with "trailers", no
    connection-specific name), the pseudo-header discipline holds, and,
    unless the block is a response or a trailer, ":authority" or "host" is
    there and their last values agree. Upper-case, padded and empty names
    are not its concern. *)
Theorem validate_outbound_headers_Return_iff
    (B : list header) (F : HeaderValidationFlags) :
  list_ (validate_outbound_headers (iter B) F) = Return B <->
  Forall (fun h => (name h = "te" -> lower (value h) = "trailers") /\
                   name h ∉ CONNECTION_HEADERS) B /\
  ~ pseudo_violation F B /\
  (is_response_header F || is_trailer F = false -> host_authority_agree B).
Proof.
  rewrite validate_outbound_headers_scan, scan_with_Return_split.
  assert (Hchecks :
    Forall (fun h => sent_check h = Return ()) B <->
    Forall (fun h => (name h = "te" -> lower (value h) = "trailers") /\
                     name h ∉ CONNECTION_HEADERS) B).
  { rewrite !Forall_forall. split; intros H h Hh; by apply sent_check_Return_iff, H. }
  rewrite Hchecks. split.
  - intros [Hall Hacc]. split; [done|]. split.
    + intros Hv. by apply (pseudo_violation_not_stateful F B B) in Hv.
    + intros Hskip. apply host_finish_agree.
      eapply stateful_host_finish; [exact Hacc|].
      unfold scan_init. cbn [host_authority]. by rewrite Hskip.
  - intros (Hall & Hnv & Hagree). split; [done|].
    apply stateful_complete; try done;
      unfold scan_init; cbn [seen_pseudo seen_regular host_authority].
    + intros x Hx Hp. split; [apply not_elem_of_empty|]. split; [done|].
      apply dec_stable. intros Hna. apply Hnv. by eapply not_allowed.
    + intros i j x y Hij Hi Hj Hp Hn. apply Hnv. by eapply duplicated.
    + intros i j x y Hij Hi Hj Hx. destruct (is_pseudo y) eqn:Hy; [|done].
      destruct Hnv. by eapply after_regular.
    + intros Et. split; [done|]. intros x Hx.
      destruct (is_pseudo x) eqn:Hp; [|done].
      destruct Hnv. by eapply pseudo_in_trailer.
    + intros Er. right.
      destruct (decide (Exists (fun x => name x = ":status") B)) as [He|He].
      * apply Exists_exists in He as (x & Hx & Hn). by exists x.
      * destruct Hnv. apply response_without_status; [done|].
        intros x Hx Hn. apply He, Exists_exists. by exists x.
    + intros ah Hah. destruct (is_response_header F || is_trailer F) eqn:Es;
        [done|]. injection Hah as <-. by apply host_finish_agree, Hagree.
Qed.

(** A request with an upper-case, padded name may be sent as it is. *)
Lemma validate_outbound_headers_Return_iff_witness :
  ~ pseudo_violation (Flags true false false false)
      [Header PlainTuple ":method" "GET"; Header PlainTuple " Host" "a";
       Header PlainTuple "host" "a"] /\
  host_authority_agree
    [Header PlainTuple ":method" "GET"; Header PlainTuple ":authority" "a"].
Proof.
  split.
  - destruct (proj1 (validate_outbound_headers_Return_iff
        [Header PlainTuple ":method" "GET"; Header PlainTuple " Host" "a";
       Header PlainTuple "host" "a"]
        (Flags true false false false))) as (_ & H & _);
      [vm_compute; reflexivity|exact H].
  - destruct (proj1 (validate_outbound_headers_Return_iff
        [Header PlainTuple ":method" "GET"; Header PlainTuple ":authority" "a"]
        (Flags true false false false))) as (_ & _ & H);
      [vm_compute; reflexivity|exact (H eq_refl)].
Defined.

End UtilitiesMore.

(** * Further properties of the connection state machine

    As for the properties above, [T] is the dictionary the class body builds
    in a namespace where it evaluates. *)

Module ConnectionMore.
Import Connection ConnectionFacts.

Lemma table_lookup_Some (k v : pyval * pyval) :
  table !! k = Some v ->
  exists S I S', k = (PyState S, PyInput I) /\ v = (PyNone, PyState S').
Proof.
  intros E. apply elem_of_list_to_map_2 in E.
  repeat (apply elem_of_cons in E as [E|E];
          [injection E as -> ->; by eexists _, _, _|]).
  by apply elem_of_nil in E.
Qed.

(** X11. A call of [process_input] ends in one of three ways: a [ValueError]
    with the state untouched, when the input is not a [ConnectionInputs]
    member; a [ProtocolError] with the state set to CLOSED; or a plain return
    of [None] with the state set to a [ConnectionState] member. *)
Theorem process_input_outcomes (ns : gmap string pyclass) (T : transitions)
    (m : H2ConnectionStateMachine) (i : pyval) :
  _transitions ns = Return T ->
  (isinstance_ConnectionInputs i = false /\
   process_input T m i = (m, Raise ValueError)) \/
  (isinstance_ConnectionInputs i = true /\
   process_input T m i = (Machine (PyState CLOSED), Raise ProtocolError)) \/
  (isinstance_ConnectionInputs i = true /\
   exists S', process_input T m i = (Machine (PyState S'), Return PyNone)).
Proof.
  intros HT. apply transitions_Return in HT as ->. unfold process_input.
  destruct (isinstance_ConnectionInputs i); cbn [negb]; [right|by left].
  destruct (table !! (state m, i)) as [[f t]|] eqn:E; [right|by left].
  apply table_lookup_Some in E as (S & I & S' & _ & [= -> ->]).
  split; [done|]. by exists S'.
Qed.

(** The class's own integer constant is not an input; SEND_DATA on a new
    machine is a protocol error. *)
Lemma process_input_outcomes_witness :
  process_input table init (PyInt 2) = (init, Raise ValueError) /\
  process_input table init (PyInput SEND_DATA)
    = (Machine (PyState CLOSED), Raise ProtocolError).
Proof.
  split.
  - destruct (process_input_outcomes patched_globals table init (PyInt 2)
                transitions_patched) as [[_ H] | [[H _] | [H _]]];
      [exact H|discriminate H..].
  - destruct (process_input_outcomes patched_globals table init (PyInput SEND_DATA)
                transitions_patched) as [[H _] | [[_ H] | [_ [S' H]]]];
      [discriminate H|exact H|vm_compute in H; discriminate H].
Defined.

Lemma process_input_table_step (S : ConnectionState) (i : pyval) :
  let m' := fst (process_input table (Machine (PyState S)) i) in
  m' = Machine (PyState S) \/ m' = Machine (PyState CLOSED) \/
  (S = IDLE /\ isinstance_ConnectionInputs i = true /\
   (m' = Machine (PyState CLIENT_OPEN) \/ m' = Machine (PyState SERVER_OPEN))).
Proof.
  destruct i as [|n|s|I]; try (left; reflexivity).
  destruct S, I; vm_compute; auto 6.
Qed.

Lemma feed_cons (T : transitions) (m : H2ConnectionStateMachine) (i : pyval)
    (rest : list pyval) :
  fst (feed T m (i :: rest)) = fst (feed T (fst (process_input T m i)) rest).
Proof.
  cbn [feed]. destruct (process_input T m i) as [m' r]. cbn [fst].
  by destruct (feed T m' rest).
Qed.

Lemma feed_open (S : ConnectionState) (inputs : list pyval) :
  S <> IDLE ->
  fst (feed table (Machine (PyState S)) inputs) = Machine (PyState S) \/
  fst (feed table (Machine (PyState S)) inputs) = Machine (PyState CLOSED).
Proof.
  revert S. induction inputs as [|i rest IH]; intros S HS; [by left|].
  rewrite feed_cons.
  destruct (process_input_table_step S i) as [-> | [-> | [? _]]]; [|right|done].
  - by apply IH.
  - apply feed_closed, table_lookup_closed.
Qed.

(** X12. The side a connection opened on is kept: whatever is fed to a
    machine in CLIENT_OPEN, it ends in CLIENT_OPEN or CLOSED, and one in
    SERVER_OPEN ends in SERVER_OPEN or CLOSED. IDLE is left for good by the
    first [ConnectionInputs] member a new machine is given. *)
Theorem sides_are_kept (ns : gmap string pyclass) (T : transitions)
    (inputs : list pyval) :
  _transitions ns = Return T ->
  (fst (feed T (Machine (PyState CLIENT_OPEN)) inputs) = Machine (PyState CLIENT_OPEN) \/
   fst (feed T (Machine (PyState CLIENT_OPEN)) inputs) = Machine (PyState CLOSED)) /\
  (fst (feed T (Machine (PyState SERVER_OPEN)) inputs) = Machine (PyState SERVER_OPEN) \/
   fst (feed T (Machine (PyState SERVER_OPEN)) inputs) = Machine (PyState CLOSED)) /\
  (Exists (fun i => isinstance_ConnectionInputs i = true) inputs ->
   fst (feed T init inputs) <> Machine (PyState IDLE)).
Proof.
  intros HT. apply transitions_Return in HT as ->.
  split; [by apply feed_open|]. split; [by apply feed_open|].
  unfold init. induction 1 as [i rest Hi | i rest _ IH]; rewrite feed_cons.
  - destruct (process_input_table_step IDLE i) as [Hm | [-> | (_ & _ & [-> | ->])]].
    + exfalso. revert Hm. destruct i as [|n|s|I]; try discriminate Hi.
      destruct I; vm_compute; discriminate.
    + rewrite feed_closed by apply table_lookup_closed. discriminate.
    + destruct (feed_open CLIENT_OPEN rest) as [-> | ->]; discriminate.
    + destruct (feed_open SERVER_OPEN rest) as [-> | ->]; discriminate.
  - destruct (process_input_table_step IDLE i) as [-> | [-> | (_ & _ & [-> | ->])]].
    + exact IH.
    + rewrite feed_closed by apply table_lookup_closed. discriminate.
    + destruct (feed_open CLIENT_OPEN rest) as [-> | ->]; discriminate.
    + destruct (feed_open SERVER_OPEN rest) as [-> | ->]; discriminate.
Qed.

(** A client that is sent a push promise from its own side is closed. *)
Lemma sides_are_kept_witness :
  fst (feed table (Machine (PyState CLIENT_OPEN))
         [PyInput RECV_PUSH_PROMISE; PyInput SEND_PUSH_PROMISE; PyInput RECV_DATA])
  = Machine (PyState CLOSED).
Proof.
  destruct (proj1 (sides_are_kept patched_globals table
              [PyInput RECV_PUSH_PROMISE; PyInput SEND_PUSH_PROMISE; PyInput RECV_DATA]
              transitions_patched)) as [H|H].
  - vm_compute in H. discriminate H.
  - exact H.
Defined.

(** X13. A call returns normally with the state CLOSED exactly when a GOAWAY
    is sent or received on an open connection; every other way into CLOSED
    raises a [ProtocolError]. *)
Theorem clean_close_is_goaway (ns : gmap string pyclass) (T : transitions)
    (S : ConnectionState) (I : ConnectionInputs) :
  _transitions ns = Return T ->
  process_input T (Machine (PyState S)) (PyInput I)
    = (Machine (PyState CLOSED), Return PyNone) <->
  (S = CLIENT_OPEN \/ S = SERVER_OPEN) /\ (I = SEND_GOAWAY \/ I = RECV_GOAWAY).
Proof.
  intros HT. apply transitions_Return in HT as ->.
  destruct S, I; vm_compute; split;
    first [ intros H; discriminate H
          | intros [[H|H] [H'|H']]; discriminate
          | intros _; reflexivity
          | intros _; auto ].
Qed.

(** RECV_GOAWAY on the server side. *)
Lemma clean_close_is_goaway_witness :
  process_input table (Machine (PyState SERVER_OPEN)) (PyInput RECV_GOAWAY)
    = (Machine (PyState CLOSED), Return PyNone).
Proof.
  apply (clean_close_is_goaway patched_globals table SERVER_OPEN RECV_GOAWAY
           transitions_patched).
  split; right; reflexivity.
Defined.

End ConnectionMore.
